(** * Streaming chat pipeline of the real-estate assistant front end

    A shallow embedding of the two TypeScript units that make up the
    streaming chat core:

    - [frontend/src/lib/api.ts], function [streamChatMessage] (the Transport);
    - [frontend/src/app/chat/page.tsx], component [ChatPage] with its
      handlers [handleSubmit], [applyStreamError] and the Retry button
      (the Session Controller).

    Around them, from the same files and their callers: the request headers
    ([getApiKey], [getUserEmail], [buildHeaders]) and [exportProperties] of
    [lib/api.ts], and the Identity and default-model forms of
    [components/settings], which write what these helpers read and call
    the settings endpoints.

    JavaScript strings are sequences of UTF-16 code units; they are modelled
    as [list N].  Promises and callbacks are modelled by the trace of callback
    invocations a call performs, followed by how the promise settles.  React
    state is an explicit record; every [setX] call is a record update and every
    handler runs against the state of the latest render. *)

From Stdlib Require Import NArith String Ascii DecimalString.
From stdpp Require Import base numbers list gmap.

Abbreviation JsString := (list N).

(** A string literal of the source, as code units. *)
Definition js (s : string) : JsString :=
  N_of_ascii <$> list_ascii_of_string s.
Arguments js s%_string.

(** ** The string primitives the source calls *)
Module Js.

(** [WhiteSpace] and [LineTerminator] code units, the ones
    [String.prototype.trim] strips. *)
Definition is_white_space (c : N) : bool :=
  (c =? 9)%N || (c =? 10)%N || (c =? 11)%N || (c =? 12)%N || (c =? 13)%N
  || (c =? 32)%N || (c =? 160)%N || (c =? 5760)%N
  || ((8192 <=? c)%N && (c <=? 8202)%N)
  || (c =? 8232)%N || (c =? 8233)%N || (c =? 8239)%N || (c =? 8287)%N
  || (c =? 12288)%N || (c =? 65279)%N.

Fixpoint trimStart (s : JsString) : JsString :=
  match s with
  | [] => []
  | c :: r => if is_white_space c then trimStart r else s
  end.

Definition trimEnd (s : JsString) : JsString :=
  reverse (trimStart (reverse s)).

(** [s.trim()] *)
Definition trim (s : JsString) : JsString := trimEnd (trimStart s).

(** Truthiness of a string: every string but the empty one. *)
Definition truthy (s : JsString) : bool :=
  match s with [] => false | _ :: _ => true end.

(** Truthiness of [string | undefined]. *)
Definition truthy_opt (o : option JsString) : bool :=
  match o with Some s => truthy s | None => false end.

(** [s.startsWith(p)] *)
Fixpoint startsWith (p s : JsString) : bool :=
  match p, s with
  | [], _ => true
  | _ :: _, [] => false
  | a :: p', b :: s' => (a =? b)%N && startsWith p' s'
  end.

(** [s.slice(n)] for [n >= 0]. *)
Definition slice (n : nat) (s : JsString) : JsString := drop n s.

Definition cons_piece (c : N) (ps : list JsString) : list JsString :=
  match ps with
  | [] => [[c]]
  | p :: ps' => (c :: p) :: ps'
  end.

(** [s.split(sep)] for a separator [sep] of the two code units [a], [b]:
    the text is cut at every occurrence of the separator, found from left
    to right without overlap; the pieces between the cuts are returned, so
    the result always has one piece more than there are cuts. *)
Fixpoint split2 (a b : N) (s : JsString) : list JsString :=
  match s with
  | [] => [[]]
  | c :: r =>
      match r with
      | [] => [[c]]
      | d :: r' =>
          if (c =? a)%N && (d =? b)%N then [] :: split2 a b r'
          else cons_piece c (split2 a b r)
      end
  end.

(** ASCII upper-casing of one code unit: the canonicalisation a regular
    expression with the [i] flag (and without [u]) applies to ASCII
    letters.  No code unit above 127 canonicalises to an ASCII one. *)
Definition upper (c : N) : N :=
  if (97 <=? c)%N && (c <=? 122)%N then (c - 32)%N else c.

(** [c] matches the literal pattern character [p] under the [i] flag. *)
Definition ieq (p c : N) : bool := (upper p =? upper c)%N.

(** If [s] starts with the literal [p] (ignoring ASCII case), the rest of
    [s] after it. *)
Fixpoint strip_prefix_i (p s : JsString) : option JsString :=
  match p, s with
  | [], _ => Some s
  | _ :: _, [] => None
  | a :: p', b :: s' => if ieq a b then strip_prefix_i p' s' else None
  end.

(** Membership in the class [[A-Za-z0-9_-]]. *)
Definition is_token_char (c : N) : bool :=
  ((65 <=? c)%N && (c <=? 90)%N) || ((97 <=? c)%N && (c <=? 122)%N)
  || ((48 <=? c)%N && (c <=? 57)%N) || (c =? 95)%N || (c =? 45)%N.

(** The greedy run matched by [[A-Za-z0-9_-]+] at the head of [s]
    (empty when the head is not in the class). *)
Fixpoint token_run (s : JsString) : JsString :=
  match s with
  | [] => []
  | c :: r => if is_token_char c then c :: token_run r else []
  end.

(** The regular expression [/request_id=([A-Za-z0-9_-]+)/i] tried at the
    head of [s]: the captured group when it matches there. *)
Definition request_id_at (s : JsString) : option JsString :=
  match strip_prefix_i (js "request_id=") s with
  | Some rest =>
      match token_run rest with
      | [] => None
      | t => Some t
      end
  | None => None
  end.

(** [message.match(/request_id=([A-Za-z0-9_-]+)/i)]: group 1 of the
    leftmost match, [None] when [match] returns [null]. *)
Fixpoint match_request_id (s : JsString) : option JsString :=
  match request_id_at s with
  | Some t => Some t
  | None =>
      match s with
      | [] => None
      | _ :: r => match_request_id r
      end
  end.

(** Membership in the class [[^\s@]]. *)
Definition is_email_char (c : N) : bool :=
  negb (is_white_space c) && negb (c =? 64)%N.

(** The tail [[^\s@]+$] of the e-mail pattern. *)
Definition email_tld (s : JsString) : bool :=
  truthy s && forallb is_email_char s.

(** [[^\s@]+\.[^\s@]+$]: once the run [[^\s@]+] has taken a character
    ([seen]), the matcher may leave it at a full stop, or go on with the
    run. *)
Fixpoint email_domain (seen : bool) (s : JsString) : bool :=
  match s with
  | [] => false
  | c :: r =>
      (seen && (c =? 46)%N && email_tld r)
      || (is_email_char c && email_domain true r)
  end.

(** [[^\s@]+@[^\s@]+\.[^\s@]+$] *)
Fixpoint email_local (seen : bool) (s : JsString) : bool :=
  match s with
  | [] => false
  | c :: r =>
      (seen && (c =? 64)%N && email_domain false r)
      || (is_email_char c && email_local true r)
  end.

(** [/^[^\s@]+@[^\s@]+\.[^\s@]+$/.test(s)] *)
Definition email_regex_test (s : JsString) : bool := email_local false s.

(** The greedy run of code units other than the double quote (code 34) at
    the head of [s]: what the group of the Content-Disposition pattern
    takes. *)
Fixpoint non_quote_run (s : JsString) : JsString :=
  match s with
  | [] => []
  | c :: r => if (c =? 34)%N then [] else c :: non_quote_run r
  end.

(** The literal the Content-Disposition pattern starts with: [filename=]
    and a double quote. *)
Definition filename_literal : JsString := js "filename=" ++ [34%N].

(** The Content-Disposition pattern of [exportProperties] (the literal,
    a group of one or more non-quote code units, a closing quote; flag
    [i]) tried at the head of [s]: the run is greedy and cannot contain a
    quote, so the pattern matches exactly when the run is not empty and a
    quote follows it. *)
Definition filename_at (s : JsString) : option JsString :=
  match strip_prefix_i filename_literal s with
  | Some rest =>
      let run := non_quote_run rest in
      match run, drop (length run) rest with
      | _ :: _, _ :: _ => Some run
      | _, _ => None
      end
  | None => None
  end.

(** [cd.match(...)] with that pattern: group 1 of the leftmost match. *)
Fixpoint match_filename (s : JsString) : option JsString :=
  match filename_at s with
  | Some t => Some t
  | None =>
      match s with
      | [] => None
      | _ :: r => match_filename r
      end
  end.

End Js.

(** ** [lib/api.ts]: the Transport *)
Module Api.

(** A thrown value: an [Error] with its message, or anything else. *)
Inductive Thrown :=
| ErrorObj (message : JsString)
| NonError.

(** [ChatRequest], the fields the chat page fills in. *)
Record ChatRequest := {
  message : JsString;
  session_id : option JsString
}.

(** The JSON body of the POST: [{ ...request, stream }]. *)
Record WireRequest := {
  wire_request : ChatRequest;
  stream : bool
}.

(** [response.body] read through [getReader()]: the decoded text of each
    chunk [read()] yields, then either [done] or a rejected [read()]. *)
Record Body := {
  reads : list JsString;
  read_error : option Thrown
}.

(** The [Response] of [fetch], as far as [streamChatMessage] looks at it.
    [text_] is [None] when [response.text()] rejects; [x_request_id] is
    what [headers.get("X-Request-ID")] returns ([None] for [null]);
    [body] is [None] for a null body.  A [Response] always carries a
    [Headers] object, so the test [headers && typeof headers.get ===
    "function"] of the failure branch holds. *)
Record Response := {
  ok : bool;
  status : N;
  text_ : option JsString;
  x_request_id : option JsString;
  body : option Body
}.

(** What [await fetch(...)] gives. *)
Inductive FetchResult :=
| FetchRejected (e : Thrown)
| FetchResponse (r : Response).

(** A callback invocation made by the transport. *)
Inductive StreamEvent :=
| EvStart (requestId : option JsString)
| EvChunk (chunk : JsString).

(** How the returned promise settles. *)
Inductive Outcome :=
| Resolved
| Rejected (e : Thrown).

(** One call of the transport: the callbacks in the order they were
    invoked, then the settlement. *)
Record StreamRun := {
  events : list StreamEvent;
  outcome : Outcome
}.

(** [x || undefined] on [string | null]. *)
Definition or_undefined (o : option JsString) : option JsString :=
  match o with
  | Some s => if Js.truthy s then Some s else None
  | None => None
  end.

(** The [status=...] rendering of a number in a template literal. *)
Definition decimal (n : N) : JsString :=
  js (NilZero.string_of_uint (N.to_uint n)).

(** The composition of [handleResponse] (the non-streaming calls), lines
    74-75, for a given message. *)
Definition handleResponse_composed
    (msg : JsString) (st : N) (requestId : option JsString) : JsString :=
  let statusPart := js "status=" ++ decimal st in
  match requestId with
  | Some id => msg ++ js " (" ++ statusPart ++ js ", request_id=" ++ id ++ js ")"
  | None => msg ++ js " (" ++ statusPart ++ js ")"
  end.

(** The message thrown by [streamChatMessage] when [!response.ok ||
    !response.body]. *)
Definition stream_error_message (r : Response) : JsString :=
  let errorText := default [] (text_ r) in
  let requestId := or_undefined (x_request_id r) in
  let message := if Js.truthy errorText then errorText
                 else js "Failed to start stream" in
  match requestId with
  | Some id => message ++ js " (request_id=" ++ id ++ js ")"
  | None => message
  end.

Definition data_prefix : JsString := js "data: ".
Definition done_sentinel : JsString := js "[DONE]".

(** The [for (const line of lines)] loop over the pieces of one chunk: the
    fragments passed to [onChunk], and whether the function returned on
    the sentinel. *)
Fixpoint for_lines (lines : list JsString) : list JsString * bool :=
  match lines with
  | [] => ([], false)
  | line :: rest =>
      if Js.startsWith data_prefix line then
        let data := Js.slice 6 line in
        if decide (data = done_sentinel) then ([], true)
        else let '(fs, d) := for_lines rest in (data :: fs, d)
      else for_lines rest
  end.

(** [chunk.split("\n\n")] *)
Definition split_frames (chunk : JsString) : list JsString :=
  Js.split2 10 10 chunk.

(** The [while (true)] loop over [reader.read()]. *)
Fixpoint read_loop (rs : list JsString) (err : option Thrown)
  : list JsString * Outcome :=
  match rs with
  | [] => ([], match err with None => Resolved | Some e => Rejected e end)
  | chunk :: rest =>
      let '(fs, d) := for_lines (split_frames chunk) in
      if d then (fs, Resolved)
      else let '(gs, o) := read_loop rest err in (fs ++ gs, o)
  end.

(** [streamChatMessage(request, onChunk, onStart?)].  [fetch] is the
    network; [with_onStart] says whether the optional callback was given. *)
Definition streamChatMessage
    (fetch : WireRequest -> FetchResult)
    (request : ChatRequest) (with_onStart : bool) : StreamRun :=
  match fetch {| wire_request := request; stream := true |} with
  | FetchRejected e => {| events := []; outcome := Rejected e |}
  | FetchResponse response =>
      match ok response, body response with
      | true, Some b =>
          let requestId := or_undefined (x_request_id response) in
          let started := if with_onStart then [EvStart requestId] else [] in
          let '(fs, o) := read_loop (reads b) (read_error b) in
          {| events := started ++ (EvChunk <$> fs); outcome := o |}
      | _, _ =>
          {| events := [];
             outcome := Rejected (ErrorObj (stream_error_message response)) |}
      end
  end.

(** A chunk ends on a frame boundary: the last piece [split] cuts from it
    is empty, that is, the chunk is empty or ends with a delimiter at
    which [split] cuts. *)
Definition frame_aligned (chunk : JsString) : bool :=
  bool_decide (last (split_frames chunk) = Some []).

(** The fragments a run handed to [onChunk], in order. *)
Definition fragments (run : StreamRun) : list JsString :=
  omap (fun ev => match ev with EvChunk c => Some c | EvStart _ => None end)
       (events run).

(** *** Request headers *)

(** What the helpers read from their surroundings: the build-time variable
    [NEXT_PUBLIC_API_KEY], and [window.localStorage] ([None] when there is
    no [window], as on the server). *)
Record Env := {
  NEXT_PUBLIC_API_KEY : option JsString;
  localStorage : option (gmap JsString JsString)
}.

(** [x && x.trim() ? x.trim() : undefined] *)
Definition trimmed_or_undefined (x : option JsString) : option JsString :=
  match x with
  | Some v => if Js.truthy v && Js.truthy (Js.trim v) then Some (Js.trim v) else None
  | None => None
  end.

Definition getApiKey (env : Env) : option JsString :=
  trimmed_or_undefined (NEXT_PUBLIC_API_KEY env).

Definition getUserEmail (env : Env) : option JsString :=
  match localStorage env with
  | None => None
  | Some store => trimmed_or_undefined (store !! js "userEmail")
  end.

(** [buildHeaders(extra?)]: a JavaScript object used as a map; in
    [{ ...headers, ...(extra || {}) }] the keys of [extra] win. *)
Definition buildHeaders (env : Env) (extra : option (gmap JsString JsString))
  : gmap JsString JsString :=
  let h0 : gmap JsString JsString := {[ js "Content-Type" := js "application/json" ]} in
  let h1 := match getApiKey env with
            | Some k => <[ js "X-API-Key" := k ]> h0
            | None => h0
            end in
  let h2 := match getUserEmail env with
            | Some e => <[ js "X-User-Email" := e ]> h1
            | None => h1
            end in
  default ∅ extra ∪ h2.

(** *** [exportProperties] *)

Inductive ExportFormat := csv | xlsx | json | md | pdf.

(** The string of an [ExportFormat], as a template literal renders it. *)
Definition format_text (f : ExportFormat) : JsString :=
  match f with
  | csv => js "csv"
  | xlsx => js "xlsx"
  | json => js "json"
  | md => js "md"
  | pdf => js "pdf"
  end.

(** The [Response] of the export call, as far as [exportProperties] looks
    at it: [content_disposition] is what
    [headers.get("Content-Disposition")] returns, [blob_] what
    [response.blob()] settles to. *)
Record ExportResponse := {
  export_ok : bool;
  export_text : option JsString;
  content_disposition : option JsString;
  blob_ : Thrown + list N
}.

Inductive ExportResult :=
| ExportFailed (e : Thrown)
| Exported (filename : JsString) (blob : list N).

(** The file name [exportProperties] picks, lines 333-338. *)
Definition export_filename (cd : option JsString) (format : ExportFormat) : JsString :=
  let cd := default [] cd in
  match Js.match_filename cd with
  | Some name => name
  | None => js "properties." ++ format_text format
  end.

(** [exportProperties(request)], after [await fetch(...)]; [format] is
    [request.format]. *)
Definition exportProperties
    (fetched : Thrown + ExportResponse) (format : ExportFormat) : ExportResult :=
  match fetched with
  | inl e => ExportFailed e
  | inr response =>
      if negb (export_ok response) then
        let errorText := default [] (export_text response) in
        ExportFailed (ErrorObj (if Js.truthy errorText then errorText
                                else js "Export request failed"))
      else
        let filename := export_filename (content_disposition response) format in
        match blob_ response with
        | inl e => ExportFailed e
        | inr b => Exported filename b
        end
  end.

End Api.

(** ** [app/chat/page.tsx]: the Session Controller *)
Module Chat.
Import Api.

Inductive Role := user | assistant.

Global Instance Role_eq_dec : EqDecision Role.
Proof. solve_decision. Defined.

(** [interface Message]; [sources] is never set by this page. *)
Record Message := {
  role : Role;
  content : JsString
}.

(** The [useState] cells of [ChatPage]. *)
Record PageState := {
  messages : list Message;
  input : JsString;
  isLoading : bool;
  sessionId : option JsString;
  requestId : option JsString;
  lastUserMessage : option JsString;
  errorMessage : option JsString
}.

Definition greeting : Message :=
  {| role := assistant;
     content := js "Hello! I'm your AI Real Estate Assistant. How can I help you find your dream property today?" |}.

Definition apology : JsString :=
  js "I apologize, but I encountered an error. Please try again.".

(** The initial values of the [useState] calls. *)
Definition initial : PageState :=
  {| messages := [greeting];
     input := [];
     isLoading := false;
     sessionId := None;
     requestId := None;
     lastUserMessage := None;
     errorMessage := None |}.

Definition setMessages (f : list Message -> list Message) (s : PageState) :=
  {| messages := f (messages s); input := input s; isLoading := isLoading s;
     sessionId := sessionId s; requestId := requestId s;
     lastUserMessage := lastUserMessage s; errorMessage := errorMessage s |}.

Definition setInput (v : JsString) (s : PageState) :=
  {| messages := messages s; input := v; isLoading := isLoading s;
     sessionId := sessionId s; requestId := requestId s;
     lastUserMessage := lastUserMessage s; errorMessage := errorMessage s |}.

Definition setIsLoading (b : bool) (s : PageState) :=
  {| messages := messages s; input := input s; isLoading := b;
     sessionId := sessionId s; requestId := requestId s;
     lastUserMessage := lastUserMessage s; errorMessage := errorMessage s |}.

Definition setSessionId (v : option JsString) (s : PageState) :=
  {| messages := messages s; input := input s; isLoading := isLoading s;
     sessionId := v; requestId := requestId s;
     lastUserMessage := lastUserMessage s; errorMessage := errorMessage s |}.

Definition setRequestId (v : option JsString) (s : PageState) :=
  {| messages := messages s; input := input s; isLoading := isLoading s;
     sessionId := sessionId s; requestId := v;
     lastUserMessage := lastUserMessage s; errorMessage := errorMessage s |}.

Definition setLastUserMessage (v : option JsString) (s : PageState) :=
  {| messages := messages s; input := input s; isLoading := isLoading s;
     sessionId := sessionId s; requestId := requestId s;
     lastUserMessage := v; errorMessage := errorMessage s |}.

Definition setErrorMessage (v : option JsString) (s : PageState) :=
  {| messages := messages s; input := input s; isLoading := isLoading s;
     sessionId := sessionId s; requestId := requestId s;
     lastUserMessage := lastUserMessage s; errorMessage := v |}.

(** [error instanceof Error ? error.message : "Unknown error"] *)
Definition error_text (e : Thrown) : JsString :=
  match e with
  | ErrorObj m => m
  | NonError => js "Unknown error"
  end.

(** The updater [applyStreamError] passes to [setMessages]. *)
Definition apology_update (prev : list Message) : list Message :=
  match last prev with
  | Some m =>
      if bool_decide (role m = assistant) && negb (Js.truthy (content m))
      then <[length prev - 1 := {| role := role m; content := apology |}]> prev
      else prev ++ [{| role := assistant; content := apology |}]
  | None => prev ++ [{| role := assistant; content := apology |}]
  end.

Definition applyStreamError (e : Thrown) (s : PageState) : PageState :=
  let message := error_text e in
  let s1 := setErrorMessage (Some message) s in
  let s2 := match Js.match_request_id message with
            | Some id => setRequestId (Some id) s1
            | None => s1
            end in
  setMessages apology_update s2.

(** The updater of the [onChunk] callback (the same in [handleSubmit] and
    in the Retry handler). *)
Definition chunk_update (chunk : JsString) (prev : list Message) : list Message :=
  match last prev with
  | Some m =>
      if bool_decide (role m = assistant)
      then <[length prev - 1 := {| role := role m; content := content m ++ chunk |}]> prev
      else prev
  | None => prev
  end.

Definition onChunk (chunk : JsString) (s : PageState) : PageState :=
  setMessages (chunk_update chunk) s.

(** The [onStart] callback: [if (requestId) setRequestId(requestId)]. *)
Definition onStart (meta : option JsString) (s : PageState) : PageState :=
  if Js.truthy_opt meta then setRequestId meta s else s.

Definition deliver (s : PageState) (ev : StreamEvent) : PageState :=
  match ev with
  | EvStart meta => onStart meta s
  | EvChunk c => onChunk c s
  end.

(** What [handleSubmit] does once the awaited transport promise settles:
    the [catch] block, then the [finally] block, in one continuation. *)
Definition settle (o : Outcome) (s : PageState) : PageState :=
  setIsLoading false
    match o with
    | Resolved => s
    | Rejected e => applyStreamError e s
    end.

(** [if (!input.trim() || isLoading) return;] *)
Definition submit_blocked (s : PageState) : bool :=
  negb (Js.truthy (Js.trim (input s))) || isLoading s.

(** [handleSubmit] from its guard up to the call of the transport: the
    new state and the request handed to [streamChatMessage].  [uuid] is
    [Some u] when [crypto.randomUUID] exists and returns [u]. *)
Definition submit_begin (uuid : option JsString) (s : PageState)
  : PageState * ChatRequest :=
  let userMessage := Js.trim (input s) in
  let s1 := setInput [] s in
  let s2 := setMessages (fun prev => prev ++ [{| role := user; content := userMessage |}]) s1 in
  let s3 := setIsLoading true s2 in
  let s4 := setErrorMessage None s3 in
  let s5 := setLastUserMessage (Some userMessage) s4 in
  let sid := match sessionId s with Some x => Some x | None => uuid end in
  let s6 := if Js.truthy_opt sid && negb (Js.truthy_opt (sessionId s))
            then setSessionId sid s5 else s5 in
  let s7 := setMessages (fun prev => prev ++ [{| role := assistant; content := [] |}]) s6 in
  (s7, {| message := userMessage; session_id := sid |}).

(** [if (!lastUserMessage || isLoading) return;] of the Retry handler. *)
Definition retry_blocked (s : PageState) : bool :=
  negb (Js.truthy_opt (lastUserMessage s)) || isLoading s.

(** The Retry handler up to the call of the transport. *)
Definition retry_begin (s : PageState) : PageState * ChatRequest :=
  let s1 := setErrorMessage None s in
  let s2 := setIsLoading true s1 in
  let s3 := setMessages (fun prev => prev ++ [{| role := assistant; content := [] |}]) s2 in
  (s3, {| message := default [] (lastUserMessage s); session_id := sessionId s |}).

(** The rest of an attempt: the callbacks of the run, then the settlement. *)
Definition finish (run : StreamRun) (s : PageState) : PageState :=
  settle (outcome run) (foldl deliver s (events run)).

(** The Retry handler chains two reactions on the transport promise,
    [.catch(err => applyStreamError(err))] and
    [.finally(() => setIsLoading(false))].  They run one after the other,
    and the page may render between them. *)
Definition retry_catch (o : Outcome) (s : PageState) : PageState :=
  match o with
  | Resolved => s
  | Rejected e => applyStreamError e s
  end.

Definition retry_finally (s : PageState) : PageState := setIsLoading false s.

(** The rest of a Retry attempt: the callbacks, then the two reactions. *)
Definition retry_finish (run : StreamRun) (s : PageState) : PageState :=
  retry_finally (retry_catch (outcome run) (foldl deliver s (events run))).

(** [handleSubmit], run to completion against a transport: the final state
    and the transport calls made. *)
Definition handleSubmit
    (transport : ChatRequest -> StreamRun) (uuid : option JsString)
    (s : PageState) : PageState * list ChatRequest :=
  if submit_blocked s then (s, [])
  else let '(s1, req) := submit_begin uuid s in
       (finish (transport req) s1, [req]).

(** The [onClick] of the Retry button, run to completion. *)
Definition retry
    (transport : ChatRequest -> StreamRun)
    (s : PageState) : PageState * list ChatRequest :=
  if retry_blocked s then (s, [])
  else let '(s1, req) := retry_begin s in
       (retry_finish (transport req) s1, [req]).

(** [send(text)]: the user types [text] and submits the form. *)
Definition send
    (transport : ChatRequest -> StreamRun) (uuid : option JsString)
    (text : JsString) (s : PageState) : PageState * list ChatRequest :=
  handleSubmit transport uuid (setInput text s).

(** The page calls the transport with both callbacks. *)
Definition page_transport (fetch : WireRequest -> FetchResult)
  : ChatRequest -> StreamRun :=
  fun req => streamChatMessage fetch req true.

(** The error notice (with the Retry button) is rendered when
    [errorMessage] is truthy; the line under the error text shows the
    stored correlation id. *)
Definition error_notice_shown (s : PageState) : bool :=
  Js.truthy_opt (errorMessage s).

Definition request_id_line (s : PageState) : JsString :=
  match requestId s with
  | Some id => if Js.truthy id then js "request_id=" ++ id else []
  | None => []
  end.

(** The correlation id one attempt yields to the page: the truthy id
    [onStart] reported last, superseded by the one the pattern finds in
    the error text when the attempt fails. *)
Definition started_id (acc : option JsString) (ev : StreamEvent) : option JsString :=
  match ev with
  | EvStart meta => if Js.truthy_opt meta then meta else acc
  | EvChunk _ => acc
  end.

Definition attempt_request_id (run : StreamRun) : option JsString :=
  let started := foldl started_id None (events run) in
  match outcome run with
  | Resolved => started
  | Rejected e =>
      match Js.match_request_id (error_text e) with
      | Some id => Some id
      | None => started
      end
  end.

(** *** The page as a transition system

    One event per handler, callback or promise reaction.  [TrSettle] is the
    settlement of a [handleSubmit] attempt, whose [catch] and [finally]
    blocks run in one continuation.  [TrCatch] and [TrFinally] are the two
    reactions of a Retry attempt; the state between them, busy and with the
    error already set, is one the page can render.  Transport callbacks and
    reactions only occur while an attempt is in flight, which is exactly
    while [isLoading] is set.  The system does not record which handler
    started the attempt in flight: it allows either form of settlement, and
    callbacks after [TrCatch], so it has every run of the page and more. *)
Inductive Event :=
| UiInput (v : JsString)
| UiSubmit (uuid : option JsString)
| UiRetry
| TrEvent (ev : StreamEvent)
| TrSettle (o : Outcome)
| TrCatch (e : Thrown)
| TrFinally.

Definition step (s : PageState) (e : Event) : PageState :=
  match e with
  | UiInput v => if isLoading s then s else setInput v s
  | UiSubmit uuid => if submit_blocked s then s else fst (submit_begin uuid s)
  | UiRetry =>
      if negb (error_notice_shown s) || retry_blocked s then s
      else fst (retry_begin s)
  | TrEvent ev => if isLoading s then deliver s ev else s
  | TrSettle o => if isLoading s then settle o s else s
  | TrCatch e => if isLoading s then retry_catch (Rejected e) s else s
  | TrFinally => if isLoading s then retry_finally s else s
  end.

(** The reactions of a Retry attempt whose promise settled with [o]. *)
Definition retry_reactions (o : Outcome) : list Event :=
  match o with
  | Resolved => [TrFinally]
  | Rejected e => [TrCatch e; TrFinally]
  end.

Definition run_events (evs : list Event) : PageState := foldl step initial evs.

(** The greeting heads the transcript, and an attempt in flight has put
    something after it. *)
Definition greeted (s : PageState) : Prop :=
  exists rest, messages s = greeting :: rest /\ (isLoading s = true -> rest <> []).

(** What every state the page reaches satisfies. *)
Record well_formed (s : PageState) : Prop := {
  wf_last_user :
    lastUserMessage s
    = content <$> last (filter (fun m => role m = user) (messages s));
  wf_needs_user :
    isLoading s = true \/ is_Some (errorMessage s) ->
    Js.truthy_opt (lastUserMessage s) = true;
  wf_open :
    isLoading s = true ->
    exists l x, messages s = l ++ [{| role := assistant; content := x |}];
  wf_users :
    forall m, m ∈ messages s -> role m = user ->
              content m <> [] /\ Js.trim (content m) = content m
}.

End Chat.

(** ** [components/settings/identity-settings.tsx]: the stored e-mail *)
Module Identity.
Import Api.

(** [isValidEmail(value)] *)
Definition isValidEmail (value : JsString) : bool :=
  let trimmed := Js.trim value in
  if negb (Js.truthy trimmed) then false
  else Js.email_regex_test trimmed.

(** The [useState] cells of [IdentitySettings]. *)
Record FormState := {
  email : JsString;
  saved : option JsString;
  error : option JsString
}.

(** One click on Save: the form afterwards, [window.localStorage]
    afterwards, and the argument of the [onChange] call, if one was made
    ([Some None] is [onChange(null)]). *)
Definition handleSave (f : FormState) (store : gmap JsString JsString)
  : FormState * gmap JsString JsString * option (option JsString) :=
  let normalized := Js.trim (email f) in
  if Js.truthy normalized && negb (isValidEmail normalized) then
    ({| email := email f; saved := None;
        error := Some (js "Please enter a valid email address.") |},
     store, None)
  else if negb (Js.truthy normalized) then
    ({| email := email f; saved := Some (js "Email cleared."); error := None |},
     delete (js "userEmail") store, Some None)
  else
    ({| email := email f; saved := Some (js "Email saved."); error := None |},
     <[ js "userEmail" := normalized ]> store, Some (Some normalized)).

(** The user types [v] into the field, then clicks Save. *)
Definition save_email (store : gmap JsString JsString) (v : JsString)
  : gmap JsString JsString :=
  (handleSave {| email := v; saved := None; error := None |} store).1.2.

End Identity.

(** ** The default-model form (the [ModelSettings] component, second caller
    of the settings calls of [lib/api.ts]) *)
Module ModelSettings.

(** [ModelProviderCatalog], the fields the form reads: the provider name
    and the ids of its models. *)
Record Provider := {
  name : JsString;
  models : list JsString
}.

(** The two [useState] cells that hold the choice. *)
Record Choice := {
  preferredProvider : option JsString;
  preferredModel : option JsString
}.

(** [catalog.find((p) => p.name === x)] *)
Definition find_provider (catalog : list Provider) (x : JsString) : option Provider :=
  list_find (fun p => name p = x) catalog ≫= fun ip => Some ip.2.

(** [x || null] *)
Definition or_null (x : option JsString) : option JsString :=
  match x with
  | Some v => if Js.truthy v then Some v else None
  | None => None
  end.

(** The [providers] memo. *)
Definition providers (catalog : option (list Provider)) : list JsString :=
  match catalog with
  | Some c => name <$> c
  | None => []
  end.

(** The [modelsForProvider] memo. *)
Definition modelsForProvider (catalog : option (list Provider)) (c : Choice)
  : list JsString :=
  match catalog with
  | None => []
  | Some cat =>
      if negb (Js.truthy_opt (preferredProvider c)) then []
      else match find_provider cat (default [] (preferredProvider c)) with
           | Some p => models p
           | None => []
           end
  end.

(** The effect that drops a choice the catalog does not offer. *)
Definition validate (catalog : option (list Provider)) (c : Choice) : Choice :=
  match catalog with
  | None => c
  | Some _ =>
      if negb (Js.truthy_opt (preferredProvider c)) then c
      else if negb (bool_decide (default [] (preferredProvider c) ∈ providers catalog))
      then {| preferredProvider := None; preferredModel := None |}
      else if Js.truthy_opt (preferredModel c)
              && negb (bool_decide (default [] (preferredModel c)
                                      ∈ modelsForProvider catalog c))
      then {| preferredProvider := preferredProvider c; preferredModel := None |}
      else c
  end.

(** The [onChange] of the provider select (rendered only with a catalog). *)
Definition selectProvider (catalog : list Provider) (value : JsString) : Choice :=
  let nextProvider := or_null (Some value) in
  match nextProvider with
  | None => {| preferredProvider := None; preferredModel := None |}
  | Some v =>
      {| preferredProvider := Some v;
         preferredModel :=
           or_null (find_provider catalog v ≫= fun p => head (models p)) |}
  end.

(** [handleSave] up to the network call: the error it shows, or the
    preferences it sends with [updateModelPreferences]. *)
Definition handleSave
    (catalog : option (list Provider)) (userEmail : option JsString) (c : Choice)
  : JsString + (JsString * JsString) :=
  if negb (Js.truthy_opt userEmail) then
    inl (js "Set an email in Identity settings to save model preferences.")
  else if negb (Js.truthy_opt (preferredProvider c))
          || negb (Js.truthy_opt (preferredModel c)) then
    inl (js "Select both a provider and a model.")
  else
    match catalog with
    | None => inl (js "Model catalog is not available.")
    | Some cat =>
        match find_provider cat (default [] (preferredProvider c)) with
        | None => inl (js "Selected provider is not available.")
        | Some p =>
            if negb (bool_decide (default [] (preferredModel c) ∈ models p)) then
              inl (js "Selected model is not available for this provider.")
            else inr (default [] (preferredProvider c), default [] (preferredModel c))
        end
    end.

End ModelSettings.

(** ** Concrete inputs: the scenarios of the test suites *)
Module Scenarios.
Import Api Chat.

(** The frame delimiter, two line feeds. *)
Definition nn : JsString := [10%N; 10%N].

(** One event-stream record carrying [payload]. *)
Definition sse (payload : JsString) : JsString := js "data: " ++ payload ++ nn.

Definition ok_response (rid : option JsString) (b : Body) : Response :=
  {| ok := true; status := 200; text_ := Some []; x_request_id := rid;
     body := Some b |}.

Definition always (r : FetchResult) : WireRequest -> FetchResult := fun _ => r.

(** Scenario A: "Hello", " world", then the sentinel. *)
Definition hello_world : Response :=
  ok_response (Some (js "req-456"))
    {| reads := [sse (js "Hello"); sse (js " world"); sse (js "[DONE]")];
       read_error := None |}.

(** Scenario B: status 500, body "boom", header id "req-999". *)
Definition boom : Response :=
  {| ok := false; status := 500; text_ := Some (js "boom");
     x_request_id := Some (js "req-999"); body := None |}.




(** Scenario D: one record "Partial", then the connection drops. *)
Definition partial : Response :=
  ok_response None
    {| reads := [sse (js "Partial")];
       read_error := Some (ErrorObj (js "network error")) |}.


(** Scenario E: the retry succeeds with "Fixed". *)
Definition fixed : Response :=
  ok_response None
    {| reads := [sse (js "Fixed") ++ sse (js "[DONE]")]; read_error := None |}.

(** The request never completes. *)
Definition offline : FetchResult := FetchRejected (ErrorObj (js "Failed to fetch")).

(** The page after the user typed "hi" and Scenario B happened. *)
Definition after_boom : PageState :=
  fst (send (page_transport (always (FetchResponse boom)))
            (Some (js "3f0c1d2e")) (js "hi") initial).

(** One record, delivered whole or cut in the middle of its payload. *)
Definition whole : list JsString := [sse (js "Hello")].
Definition cut : list JsString := [js "data: He"; js "llo" ++ nn].

End Scenarios.

(** * Properties *)

(** ** String primitives *)
Section JsFacts.

Lemma trimStart_white s :
  Forall (fun c => Js.is_white_space c = true) s -> Js.trimStart s = [].
Proof.
  induction 1 as [|c r Hc _ IH]; simpl; [done|]. by rewrite Hc.
Qed.

Lemma trim_white s :
  Forall (fun c => Js.is_white_space c = true) s -> Js.trim s = [].
Proof.
  intros H. unfold Js.trim, Js.trimEnd. by rewrite (trimStart_white s H).
Qed.

Lemma split2_nonempty a b s : Js.split2 a b s <> [].
Proof.
  destruct s as [|c [|d r]]; [done | done |].
  change (Js.split2 a b (c :: d :: r)) with
    (if (c =? a)%N && (d =? b)%N then [] :: Js.split2 a b r
     else Js.cons_piece c (Js.split2 a b (d :: r))).
  destruct ((c =? a)%N && (d =? b)%N); [done|].
  unfold Js.cons_piece. by destruct (Js.split2 a b (d :: r)).
Qed.

Lemma split2_cons2 a b c d r :
  Js.split2 a b (c :: d :: r) =
    if (c =? a)%N && (d =? b)%N then [] :: Js.split2 a b r
    else Js.cons_piece c (Js.split2 a b (d :: r)).
Proof. reflexivity. Qed.

(** A cut that ends exactly where the first text ends is not disturbed by
    what follows: the pieces of the concatenation are the pieces of the
    first text (without its empty last piece) followed by the pieces of
    the second. *)
Lemma split2_app_aligned a b c2 : forall n c1 pieces,
  length c1 <= n ->
  Js.split2 a b c1 = pieces ++ [[]] ->
  Js.split2 a b (c1 ++ c2) = pieces ++ Js.split2 a b c2.
Proof.
  induction n as [|n IH]; intros c1 pieces Hlen Hsp.
  - destruct c1; simpl in Hlen; [|lia].
    simpl in Hsp. destruct pieces as [|p [|q ps]]; simplify_eq/=; done.
  - destruct c1 as [|c [|d r]].
    + simpl in Hsp. destruct pieces as [|p [|q ps]]; simplify_eq/=; done.
    + simpl in Hsp. destruct pieces as [|p [|q ps]]; simplify_eq/=.
    + change ((c :: d :: r) ++ c2) with (c :: d :: (r ++ c2)).
      rewrite split2_cons2 in Hsp |- *.
      destruct ((c =? a)%N && (d =? b)%N).
      * destruct pieces as [|p ps]; simplify_eq/=.
        { by destruct (split2_nonempty a b r). }
        f_equal. apply IH; [simpl in Hlen; lia | done].
      * assert (Hne := split2_nonempty a b (d :: r)).
        destruct (Js.split2 a b (d :: r)) as [|p ps] eqn:E; [done|].
        simpl in Hsp.
        destruct pieces as [|q qs]; [discriminate Hsp|].
        injection Hsp as <- ->.
        change (d :: r ++ c2) with ((d :: r) ++ c2).
        rewrite (IH (d :: r) (p :: qs)); [done | simpl in Hlen |- *; lia |].
        by rewrite E.
Qed.

Lemma strip_prefix_i_app p : forall s r t,
  Js.strip_prefix_i p s = Some r -> Js.strip_prefix_i p (s ++ t) = Some (r ++ t).
Proof.
  induction p as [|a p IH]; intros s r t H; cbn in H |- *.
  - by simplify_eq.
  - destruct s as [|b s]; [done|]. cbn.
    destruct (Js.ieq a b); [by apply IH | done].
Qed.

Lemma strip_prefix_i_self p x : Js.strip_prefix_i p (p ++ x) = Some x.
Proof.
  induction p as [|a p IH]; cbn; [done|].
  unfold Js.ieq. by rewrite N.eqb_refl.
Qed.

(** A literal without a space does not start matching across a space. *)
Lemma strip_prefix_i_none_app p :
  Forall (fun a => Js.ieq a 32 = false) p ->
  forall s t, Js.strip_prefix_i p s = None ->
              Js.strip_prefix_i p (s ++ 32%N :: t) = None.
Proof.
  induction 1 as [|a p Ha _ IH]; intros s t H; [done|].
  destruct s as [|b s]; cbn in H |- *.
  - by rewrite Ha.
  - destruct (Js.ieq a b); [by apply IH | done].
Qed.

Lemma token_run_app_space r t : Js.token_run (r ++ 32%N :: t) = Js.token_run r.
Proof.
  induction r as [|c r IH]; [done|]. cbn.
  destruct (Js.is_token_char c); [by rewrite IH | done].
Qed.

Lemma token_run_all id t :
  Forall (fun c => Js.is_token_char c = true) id ->
  Js.token_run (id ++ 41%N :: t) = id.
Proof.
  induction 1 as [|c id Hc _ IH]; [done|]. cbn. by rewrite Hc, IH.
Qed.

Lemma request_id_at_app s t :
  Js.request_id_at s = None -> Js.request_id_at (s ++ 32%N :: t) = None.
Proof.
  unfold Js.request_id_at. intros H.
  destruct (Js.strip_prefix_i (js "request_id=") s) as [r|] eqn:E.
  - rewrite (strip_prefix_i_app _ _ _ _ E), token_run_app_space.
    by destruct (Js.token_run r).
  - rewrite strip_prefix_i_none_app; [done | | done].
    vm_compute. repeat constructor.
Qed.

Lemma match_request_id_cons c r :
  Js.match_request_id (c :: r)
  = match Js.request_id_at (c :: r) with
    | Some t => Some t
    | None => Js.match_request_id r
    end.
Proof. reflexivity. Qed.

Lemma match_request_id_app s t :
  Js.match_request_id s = None ->
  Js.match_request_id (s ++ 32%N :: t) = Js.match_request_id (32%N :: t).
Proof.
  induction s as [|c s IH]; [done|].
  rewrite match_request_id_cons. intros H.
  destruct (Js.request_id_at (c :: s)) eqn:E; [done|].
  change ((c :: s) ++ 32%N :: t) with (c :: (s ++ 32%N :: t)).
  rewrite match_request_id_cons.
  change (c :: (s ++ 32%N :: t)) with ((c :: s) ++ 32%N :: t).
  rewrite (request_id_at_app _ t E). by apply IH.
Qed.

(** The pattern recovers a token-shaped id from the suffix the transport
    appends, whatever precedes it, unless the preceding text already has a
    match of its own. *)
Lemma match_request_id_composed msg id :
  Js.match_request_id msg = None ->
  Forall (fun c => Js.is_token_char c = true) id ->
  id <> [] ->
  Js.match_request_id (msg ++ js " (request_id=" ++ id ++ js ")") = Some id.
Proof.
  intros Hm Hid Hne.
  change (js " (request_id=") with (32%N :: 40%N :: js "request_id=").
  change (js ")") with [41%N].
  change ((32%N :: 40%N :: js "request_id=") ++ id ++ [41%N])
    with (32%N :: 40%N :: (js "request_id=" ++ id ++ [41%N])).
  rewrite (match_request_id_app _ _ Hm).
  rewrite !match_request_id_cons.
  change (Js.request_id_at (32%N :: 40%N :: js "request_id=" ++ id ++ [41%N]))
    with (@None JsString).
  change (Js.request_id_at (40%N :: js "request_id=" ++ id ++ [41%N]))
    with (@None JsString).
  cbv beta iota.
  destruct (js "request_id=") as [|c0 p0] eqn:Ep; [discriminate Ep|].
  change ((c0 :: p0) ++ id ++ [41%N]) with (c0 :: (p0 ++ id ++ [41%N])).
  rewrite match_request_id_cons.
  change (c0 :: (p0 ++ id ++ [41%N])) with ((c0 :: p0) ++ id ++ [41%N]).
  rewrite <- Ep. unfold Js.request_id_at.
  rewrite strip_prefix_i_self, token_run_all by done.
  by destruct id.
Qed.







End JsFacts.

(** ** The Transport *)
Section ApiFacts.
Import Api.

Lemma for_lines_app l1 l2 :
  for_lines (l1 ++ l2) =
    let '(f1, d1) := for_lines l1 in
    if d1 then (f1, true)
    else let '(f2, d2) := for_lines l2 in (f1 ++ f2, d2).
Proof.
  induction l1 as [|line l1 IH]; cbn [for_lines app].
  - by destruct (for_lines l2).
  - destruct (Js.startsWith data_prefix line); [|exact IH].
    destruct (decide (Js.slice 6 line = done_sentinel)); [done|].
    rewrite IH. destruct (for_lines l1) as [f1 [|]]; [done|].
    by destruct (for_lines l2).
Qed.

Lemma for_lines_empty_piece l : for_lines (l ++ [[]]) = for_lines l.
Proof.
  rewrite for_lines_app. destruct (for_lines l) as [f1 [|]]; [done|].
  simpl. by rewrite app_nil_r.
Qed.

Lemma frame_aligned_pieces chunk :
  frame_aligned chunk = true ->
  exists pieces, split_frames chunk = pieces ++ [[]].
Proof.
  unfold frame_aligned. intros H%bool_decide_eq_true.
  destruct (split_frames chunk) as [|p ps] eqn:E using rev_ind; [done|].
  rewrite last_snoc in H. simplify_eq. eauto.
Qed.

(** Reading aligned chunks one by one is reading their concatenation at
    once. *)
Lemma read_loop_aligned err chunks :
  Forall (fun c => frame_aligned c = true) chunks ->
  read_loop chunks err = read_loop [concat chunks] err.
Proof.
  induction 1 as [|c rest Hc _ IH].
  - simpl. by destruct err.
  - destruct (frame_aligned_pieces c Hc) as [pieces Hp].
    cbn [read_loop concat] in IH |- *. unfold split_frames in *.
    rewrite (split2_app_aligned 10 10 (concat rest) (length c) c pieces);
      [|done|done].
    rewrite Hp, for_lines_empty_piece, for_lines_app, IH.
    destruct (for_lines pieces) as [f1 [|]]; [done|].
    destruct (for_lines (Js.split2 10 10 (concat rest))) as [f2 [|]].
    + done.
    + by rewrite !app_nil_r.
Qed.


End ApiFacts.

Section TransportClaims.
Import Api Scenarios.

Lemma fragments_of_run started fs o :
  (forall ev, ev ∈ started -> exists m, ev = EvStart m) ->
  fragments {| events := started ++ (EvChunk <$> fs); outcome := o |} = fs.
Proof.
  unfold fragments. cbn [events]. intros Hst.
  rewrite omap_app.
  assert (omap (fun ev => match ev with EvChunk c => Some c | EvStart _ => None end)
            started = []) as ->.
  { induction started as [|ev st IH]; [done|].
    destruct (Hst ev) as [m ->]; [by left|].
    cbn. apply IH. intros ev' Hev'. apply Hst. by right. }
  cbn. induction fs as [|f fs IH]; [done|]. cbn. by rewrite IH.
Qed.

(** C1, as the spec puts it, fails: on the streaming path the composed
    message carries no HTTP status.  Scenario B gives
    "boom (request_id=req-999)", not the status-bearing composition that
    the non-streaming calls produce. *)
Lemma C1_stream_error_has_no_status :
  outcome (streamChatMessage (always (FetchResponse boom))
             {| message := js "hi"; session_id := None |} true)
    = Rejected (ErrorObj (js "boom (request_id=req-999)"))
  /\ handleResponse_composed (js "boom") (status boom) (Some (js "req-999"))
     = js "boom (status=500, request_id=req-999)"
  /\ js "boom (request_id=req-999)" <> js "boom (status=500, request_id=req-999)".
Proof. vm_compute. repeat split; discriminate. Qed.

(** C1, amended: when the response is not ok or has no body,
    [streamChatMessage] invokes no callback and rejects with the server
    text (or "Failed to start stream" when there is none), followed by
    " (request_id=<id>)" when the X-Request-ID header is present and not
    empty, and by nothing otherwise.  The status is not part of it. *)
Theorem C1_stream_error_format fetch request w r :
  fetch {| wire_request := request; stream := true |} = FetchResponse r ->
  ok r = false \/ body r = None ->
  let message :=
    match text_ r with
    | Some (c :: t) => c :: t
    | _ => js "Failed to start stream"
    end in
  streamChatMessage fetch request w =
    {| events := [];
       outcome := Rejected (ErrorObj
         match x_request_id r with
         | Some (c :: id) => message ++ js " (request_id=" ++ (c :: id) ++ js ")"
         | _ => message
         end) |}.
Proof.
  intros Hf Hfail. unfold streamChatMessage. rewrite Hf.
  assert (stream_error_message r =
          match x_request_id r with
          | Some (c :: id) =>
              match text_ r with Some (c' :: t) => c' :: t
                               | _ => js "Failed to start stream" end
              ++ js " (request_id=" ++ (c :: id) ++ js ")"
          | _ => match text_ r with Some (c' :: t) => c' :: t
                                  | _ => js "Failed to start stream" end
          end) as <-.
  { unfold stream_error_message, or_undefined.
    destruct (x_request_id r) as [[|c id]|], (text_ r) as [[|c' t]|]; reflexivity. }
  destruct Hfail as [H|H]; rewrite H; [done|]. by destruct (ok r).
Qed.

Lemma C1_stream_error_format_witness :
  always (FetchResponse boom)
    {| wire_request := {| message := js "hi"; session_id := None |};
       stream := true |} = FetchResponse boom
  /\ (ok boom = false \/ body boom = None)
  /\ streamChatMessage (always (FetchResponse boom))
       {| message := js "hi"; session_id := None |} true
     = {| events := [];
          outcome := Rejected (ErrorObj (js "boom (request_id=req-999)")) |}.
Proof.
  split; [reflexivity|]. split; [left; reflexivity|].
  apply (C1_stream_error_format (always (FetchResponse boom))
           {| message := js "hi"; session_id := None |} true boom);
    [reflexivity | left; reflexivity].
Defined.

(** C3, as stated, fails: the same text read in two different partitions
    forwards different fragments, because every chunk is split on its own
    and nothing is carried over from one chunk to the next. *)
Lemma C3_partition_changes_fragments :
  concat whole = concat cut
  /\ fragments (streamChatMessage
       (always (FetchResponse (ok_response None {| reads := whole; read_error := None |})))
       {| message := js "hi"; session_id := None |} true) = [js "Hello"]
  /\ fragments (streamChatMessage
       (always (FetchResponse (ok_response None {| reads := cut; read_error := None |})))
       {| message := js "hi"; session_id := None |} true) = [js "He"].
Proof. vm_compute. repeat split. Qed.

(** C3, amended: among the partitions whose chunks all end on a frame
    boundary, the run of [streamChatMessage] (callbacks and settlement)
    depends only on the concatenated text; the fragments are the payloads
    of the "data: "-prefixed frames of that text, in their order, up to the
    sentinel. *)
Theorem C3_aligned_partitions_agree
    request w st txt rid err (chunks1 chunks2 : list JsString) :
  Forall (fun c => frame_aligned c = true) chunks1 ->
  Forall (fun c => frame_aligned c = true) chunks2 ->
  concat chunks1 = concat chunks2 ->
  let response chunks :=
    {| ok := true; status := st; text_ := txt; x_request_id := rid;
       body := Some {| reads := chunks; read_error := err |} |} in
  streamChatMessage (always (FetchResponse (response chunks1))) request w
    = streamChatMessage (always (FetchResponse (response chunks2))) request w
  /\ fragments (streamChatMessage (always (FetchResponse (response chunks1))) request w)
     = (for_lines (split_frames (concat chunks1))).1.
Proof.
  intros H1 H2 Hcat response.
  unfold streamChatMessage, always, response. cbn [ok body reads read_error x_request_id].
  rewrite (read_loop_aligned err chunks1 H1), (read_loop_aligned err chunks2 H2), <- Hcat.
  split; [done|].
  cbn [read_loop].
  destruct (for_lines (split_frames (concat chunks1))) as [fs [|]]; cbn [fst].
  - apply fragments_of_run. intros ev. destruct w; [|by intros ?%elem_of_nil].
    intros ->%list_elem_of_singleton. eauto.
  - destruct err; rewrite app_nil_r; apply fragments_of_run; intros ev;
      (destruct w; [|by intros ?%elem_of_nil]);
      intros ->%list_elem_of_singleton; eauto.
Qed.

Lemma C3_aligned_partitions_agree_witness :
  Forall (fun c => frame_aligned c = true) [sse (js "Hello"); sse (js " world")]
  /\ Forall (fun c => frame_aligned c = true) [sse (js "Hello") ++ sse (js " world")]
  /\ concat [sse (js "Hello"); sse (js " world")] = concat [sse (js "Hello") ++ sse (js " world")]
  /\ fragments (streamChatMessage
       (always (FetchResponse (ok_response None
          {| reads := [sse (js "Hello"); sse (js " world")]; read_error := None |})))
       {| message := js "hi"; session_id := None |} true)
     = [js "Hello"; js " world"].
Proof.
  assert (Ha : Forall (fun c => frame_aligned c = true) [sse (js "Hello"); sse (js " world")])
    by (repeat constructor).
  assert (Hb : Forall (fun c => frame_aligned c = true) [sse (js "Hello") ++ sse (js " world")])
    by (repeat constructor).
  assert (Hc : concat [sse (js "Hello"); sse (js " world")]
               = concat [sse (js "Hello") ++ sse (js " world")]) by reflexivity.
  split; [exact Ha|]. split; [exact Hb|]. split; [exact Hc|].
  destruct (C3_aligned_partitions_agree
              {| message := js "hi"; session_id := None |} true 200 (Some []) None None
              _ _ Ha Hb Hc) as [_ H].
  exact H.
Defined.

End TransportClaims.

(** ** The Session Controller *)
Section ChatFacts.
Import Api Chat.

Lemma insert_last {A} (l : list A) (x y : A) :
  <[length (l ++ [x]) - 1 := y]> (l ++ [x]) = l ++ [y].
Proof.
  rewrite length_app. cbn [length].
  replace (length l + 1 - 1) with (length l + 0) by lia.
  by rewrite insert_app_r.
Qed.

Lemma chunk_update_snoc l x c :
  chunk_update c (l ++ [{| role := assistant; content := x |}])
  = l ++ [{| role := assistant; content := x ++ c |}].
Proof.
  unfold chunk_update. rewrite last_snoc. cbn [role content].
  rewrite bool_decide_eq_true_2 by done. apply insert_last.
Qed.

Lemma apology_update_empty l :
  apology_update (l ++ [{| role := assistant; content := [] |}])
  = l ++ [{| role := assistant; content := apology |}].
Proof.
  unfold apology_update. rewrite last_snoc. cbn [role content Js.truthy negb andb].
  rewrite bool_decide_eq_true_2 by done. apply insert_last.
Qed.

Lemma apology_update_other l :
  (forall m, last l = Some m -> role m = user \/ content m <> []) ->
  apology_update l = l ++ [{| role := assistant; content := apology |}].
Proof.
  unfold apology_update. intros H.
  destruct (last l) as [m|]; [|done].
  destruct (H m eq_refl) as [Hr|Hc].
  - rewrite Hr. by rewrite bool_decide_eq_false_2.
  - destruct (content m); [done|]. by rewrite andb_false_r.
Qed.

(** Folding the callbacks of a run into a transcript that ends with an
    assistant entry only grows that entry, by the fragments in order. *)
Lemma deliver_messages evs : forall s l x,
  messages s = l ++ [{| role := assistant; content := x |}] ->
  messages (foldl deliver s evs)
  = l ++ [{| role := assistant;
             content := x ++ concat (fragments {| events := evs; outcome := Resolved |}) |}].
Proof.
  unfold fragments. cbn [events].
  induction evs as [|ev evs IH]; intros s l x Hs; cbn [foldl omap].
  - by rewrite app_nil_r.
  - destruct ev as [meta|c]; cbn [deliver].
    + rewrite (IH _ l x); [done|].
      unfold onStart. by destruct (Js.truthy_opt meta).
    + rewrite (IH _ l (x ++ c)).
      * cbn. by rewrite <- app_assoc.
      * unfold onChunk. cbn [setMessages messages]. rewrite Hs.
        apply chunk_update_snoc.
Qed.

Lemma deliver_frame evs : forall s,
  let s' := foldl deliver s evs in
  isLoading s' = isLoading s /\ errorMessage s' = errorMessage s
  /\ sessionId s' = sessionId s /\ lastUserMessage s' = lastUserMessage s
  /\ input s' = input s.
Proof.
  induction evs as [|ev evs IH]; intros s; cbn [foldl]; [done|].
  destruct (IH (deliver s ev)) as (-> & -> & -> & -> & ->).
  destruct ev as [meta|c]; cbn [deliver]; [|done].
  unfold onStart. by destruct (Js.truthy_opt meta).
Qed.

Lemma deliver_requestId evs : forall s acc prev,
  requestId s = from_option Some prev acc ->
  requestId (foldl deliver s evs)
  = from_option Some prev (foldl started_id acc evs).
Proof.
  induction evs as [|ev evs IH]; intros s acc prev Hs; cbn [foldl]; [done|].
  apply IH. destruct ev as [meta|c]; cbn [deliver started_id]; [|done].
  unfold onStart. destruct (Js.truthy_opt meta) eqn:E; [|done].
  destruct meta; [done | discriminate E].
Qed.

Lemma finish_requestId run s :
  requestId (finish run s)
  = from_option Some (requestId s) (attempt_request_id run).
Proof.
  unfold finish, settle, attempt_request_id.
  pose proof (deliver_requestId (events run) s None (requestId s) eq_refl) as H.
  destruct (outcome run) as [|e]; cbn [requestId setIsLoading]; [done|].
  unfold applyStreamError.
  destruct (Js.match_request_id (error_text e)); cbn; done.
Qed.

Lemma send_unblocked transport uuid text s :
  isLoading s = false -> Js.trim text <> [] ->
  send transport uuid text s
  = (finish (transport (submit_begin uuid (setInput text s)).2)
            (submit_begin uuid (setInput text s)).1,
     [(submit_begin uuid (setInput text s)).2]).
Proof.
  intros Hl Ht. unfold send, handleSubmit, submit_blocked.
  cbn [setInput input isLoading]. rewrite Hl.
  destruct (Js.trim text) eqn:E; [done|]. cbn [Js.truthy negb orb].
  by destruct (submit_begin _ _).
Qed.

Lemma submit_begin_messages uuid text s :
  messages (submit_begin uuid (setInput text s)).1
  = (messages s ++ [{| role := user; content := Js.trim text |}])
    ++ [{| role := assistant; content := [] |}].
Proof.
  unfold submit_begin. cbn [fst]. cbn [setInput input sessionId].
  by destruct (_ && _).
Qed.

Lemma submit_begin_state uuid text s :
  let s1 := (submit_begin uuid (setInput text s)).1 in
  isLoading s1 = true /\ errorMessage s1 = None
  /\ lastUserMessage s1 = Some (Js.trim text)
  /\ requestId s1 = requestId s
  /\ sessionId s1
     = (if Js.truthy_opt (submit_begin uuid (setInput text s)).2.(session_id)
           && negb (Js.truthy_opt (sessionId s))
        then (submit_begin uuid (setInput text s)).2.(session_id)
        else sessionId s).
Proof.
  unfold submit_begin. cbn [fst snd session_id setInput input sessionId].
  by destruct (_ && _).
Qed.

Lemma retry_unblocked transport s :
  isLoading s = false -> Js.truthy_opt (lastUserMessage s) = true ->
  retry transport s
  = (finish (transport (retry_begin s).2) (retry_begin s).1, [(retry_begin s).2]).
Proof.
  intros Hl Ht. unfold retry, retry_blocked. rewrite Hl, Ht. reflexivity.
Qed.

(** What [finish] does to the transcript of an attempt that has just
    begun. *)
Lemma finish_messages run s l :
  messages s = l ++ [{| role := assistant; content := [] |}] ->
  messages (finish run s)
  = match outcome run with
    | Resolved => l ++ [{| role := assistant; content := concat (fragments run) |}]
    | Rejected _ =>
        apology_update (l ++ [{| role := assistant; content := concat (fragments run) |}])
    end.
Proof.
  intros Hs. unfold finish, settle.
  pose proof (deliver_messages (events run) s l [] Hs) as H. cbn [app] in H.
  change (fragments {| events := events run; outcome := Resolved |})
    with (fragments run) in H.
  destruct (outcome run) as [|e]; cbn [setIsLoading messages]; [done|].
  unfold applyStreamError.
  destruct (Js.match_request_id (error_text e)); cbn [setMessages messages setRequestId setErrorMessage];
    by rewrite H.
Qed.

Lemma finish_state run s :
  isLoading (finish run s) = false
  /\ errorMessage (finish run s)
     = match outcome run with
       | Resolved => errorMessage s
       | Rejected e => Some (error_text e)
       end
  /\ sessionId (finish run s) = sessionId s
  /\ lastUserMessage (finish run s) = lastUserMessage s.
Proof.
  unfold finish, settle.
  destruct (deliver_frame (events run) s) as (_ & He & Hs & Hu & _).
  destruct (outcome run) as [|e]; cbn [setIsLoading isLoading errorMessage sessionId lastUserMessage];
    [done|].
  unfold applyStreamError.
  destruct (Js.match_request_id (error_text e)); cbn; done.
Qed.

End ChatFacts.

Section ControllerClaims.
Import Api Chat Scenarios.

(** C2: when [send] passes its guard and the transport resolves, the
    transcript is the old one, the user Message, and one assistant Message
    whose content is the concatenation of the fragments handed to [onChunk]
    in delivery order; the page is neither busy nor in error afterwards. *)
Theorem C2_fragments_accumulate transport uuid text s :
  isLoading s = false ->
  Js.trim text <> [] ->
  outcome (transport (submit_begin uuid (setInput text s)).2) = Resolved ->
  let run := transport (submit_begin uuid (setInput text s)).2 in
  let s' := (send transport uuid text s).1 in
  messages s'
  = messages s ++ [{| role := user; content := Js.trim text |};
                   {| role := assistant; content := concat (fragments run) |}]
  /\ isLoading s' = false
  /\ errorMessage s' = None.
Proof.
  intros Hl Ht Ho run s'. subst s'. rewrite send_unblocked by done. cbn [fst].
  fold run.
  destruct (finish_state run (submit_begin uuid (setInput text s)).1) as (-> & -> & _).
  rewrite (finish_messages run _ _ (submit_begin_messages uuid text s)).
  subst run. rewrite Ho. split; [by rewrite <- app_assoc|].
  split; [done|]. apply submit_begin_state.
Qed.

(** Scenario A through the real transport: "Hello", " world", [DONE]. *)
Lemma C2_fragments_accumulate_witness :
  isLoading initial = false
  /\ Js.trim (js "hi") <> []
  /\ outcome (page_transport (always (FetchResponse hello_world))
               (submit_begin None (setInput (js "hi") initial)).2) = Resolved
  /\ (messages (send (page_transport (always (FetchResponse hello_world)))
                     None (js "hi") initial).1
      = [greeting; {| role := user; content := js "hi" |};
         {| role := assistant; content := js "Hello world" |}]
      /\ isLoading (send (page_transport (always (FetchResponse hello_world)))
                         None (js "hi") initial).1 = false
      /\ errorMessage (send (page_transport (always (FetchResponse hello_world)))
                            None (js "hi") initial).1 = None).
Proof.
  assert (H1 : isLoading initial = false) by reflexivity.
  assert (H2 : Js.trim (js "hi") <> []) by (vm_compute; discriminate).
  assert (H3 : outcome (page_transport (always (FetchResponse hello_world))
                 (submit_begin None (setInput (js "hi") initial)).2) = Resolved)
    by reflexivity.
  split; [exact H1|]. split; [exact H2|]. split; [exact H3|].
  exact (C2_fragments_accumulate
           (page_transport (always (FetchResponse hello_world)))
           None (js "hi") initial H1 H2 H3).
Defined.

(** C7: a submit whose text is empty or made of white space only, and any
    submit while an attempt is in flight, changes nothing and calls the
    transport not at all. *)
Theorem C7_blocked_send_is_noop transport uuid s :
  Forall (fun c => Js.is_white_space c = true) (input s) \/ isLoading s = true ->
  handleSubmit transport uuid s = (s, []).
Proof.
  intros H. unfold handleSubmit, submit_blocked.
  destruct H as [H|H].
  - by rewrite (trim_white _ H).
  - rewrite H. by rewrite orb_true_r.
Qed.

Lemma C7_blocked_send_is_noop_witness :
  (Forall (fun c => Js.is_white_space c = true) (input (setInput (js "   ") initial))
   \/ isLoading (setInput (js "   ") initial) = true)
  /\ send (page_transport (always (FetchResponse hello_world))) None (js "   ") initial
     = (setInput (js "   ") initial, []).
Proof.
  assert (H : Forall (fun c => Js.is_white_space c = true)
                (input (setInput (js "   ") initial))
              \/ isLoading (setInput (js "   ") initial) = true)
    by (left; repeat constructor).
  split; [exact H|].
  exact (C7_blocked_send_is_noop
           (page_transport (always (FetchResponse hello_world))) None
           (setInput (js "   ") initial) H).
Defined.




End ControllerClaims.

Section FailureClaims.
Import Api Chat Scenarios.

(** C9: when the transcript does not end with an empty assistant entry,
    [applyStreamError] adds one assistant Message holding the apology at
    the end; so after a failure that follows fragments with some text the
    transcript ends with two assistant entries, the partial content and
    then the apology. *)
Theorem C9_apology_appended e s transport uuid text s0 :
  (forall m, last (messages s) = Some m -> role m = user \/ content m <> []) ->
  messages (applyStreamError e s)
  = messages s ++ [{| role := assistant; content := apology |}]
  /\ (isLoading s0 = false ->
      Js.trim text <> [] ->
      outcome (transport (submit_begin uuid (setInput text s0)).2) = Rejected e ->
      concat (fragments (transport (submit_begin uuid (setInput text s0)).2)) <> [] ->
      messages (send transport uuid text s0).1
      = (messages s0 ++ [{| role := user; content := Js.trim text |}])
        ++ [{| role := assistant;
               content := concat (fragments (transport (submit_begin uuid (setInput text s0)).2)) |};
            {| role := assistant; content := apology |}]).
Proof.
  intros Hs. split.
  - unfold applyStreamError.
    destruct (Js.match_request_id (error_text e));
      cbn [setMessages messages setRequestId setErrorMessage];
      by apply apology_update_other.
  - intros Hl Ht Ho Hne. rewrite send_unblocked by done. cbn [fst].
    rewrite (finish_messages _ _ _ (submit_begin_messages uuid text s0)), Ho.
    rewrite apology_update_other.
    + by rewrite <- !app_assoc.
    + intros m. rewrite last_snoc. intros [= <-]. by right.
Qed.

(** The greeting alone, and Scenario D through the real transport. *)
Lemma C9_apology_appended_witness :
  (forall m, last (messages initial) = Some m -> role m = user \/ content m <> [])
  /\ messages (applyStreamError (ErrorObj (js "network error")) initial)
     = [greeting; {| role := assistant; content := apology |}]
  /\ messages (send (page_transport (always (FetchResponse partial)))
                    None (js "hi") initial).1
     = [greeting; {| role := user; content := js "hi" |};
        {| role := assistant; content := js "Partial" |};
        {| role := assistant; content := apology |}].
Proof.
  assert (H : forall m, last (messages initial) = Some m ->
                        role m = user \/ content m <> []).
  { intros m [= <-]. right. vm_compute. discriminate. }
  assert (H2 : Js.trim (js "hi") <> []) by (vm_compute; discriminate).
  assert (H4 : concat (fragments (page_transport (always (FetchResponse partial))
                 (submit_begin None (setInput (js "hi") initial)).2)) <> [])
    by (vm_compute; discriminate).
  destruct (C9_apology_appended (ErrorObj (js "network error")) initial
              (page_transport (always (FetchResponse partial))) None (js "hi")
              initial H) as [Ha Hb].
  split; [exact H|]. split; [exact Ha|].
  exact (Hb eq_refl H2 eq_refl H4).
Defined.




End FailureClaims.

Section RetryClaims.
Import Api Chat Scenarios.

(** C6: after a failed send, Retry calls the transport with the very
    request of the failed attempt (the trimmed user text and the same
    session id, not a new one), adds no user Message and exactly one empty
    assistant Message, and folds the fragments into that Message as a send
    does.  [crypto.randomUUID] never returns the empty string. *)
Theorem C6_retry_repeats_request transport1 transport2 uuid text s e :
  isLoading s = false ->
  Js.trim text <> [] ->
  uuid <> Some [] ->
  outcome (transport1 (submit_begin uuid (setInput text s)).2) = Rejected e ->
  let req1 := (submit_begin uuid (setInput text s)).2 in
  let s1 := (send transport1 uuid text s).1 in
  let run2 := transport2 req1 in
  (send transport1 uuid text s).2 = [req1]
  /\ (retry transport2 s1).2 = [req1]
  /\ message req1 = Js.trim text
  /\ messages (retry_begin s1).1
     = messages s1 ++ [{| role := assistant; content := [] |}]
  /\ messages (retry transport2 s1).1
     = match outcome run2 with
       | Resolved =>
           messages s1 ++ [{| role := assistant; content := concat (fragments run2) |}]
       | Rejected _ =>
           apology_update
             (messages s1 ++ [{| role := assistant; content := concat (fragments run2) |}])
       end
  /\ (outcome run2 = Resolved ->
      isLoading (retry transport2 s1).1 = false
      /\ errorMessage (retry transport2 s1).1 = None).
Proof.
  intros Hl Ht Hu Ho req1 s1 run2. subst s1.
  rewrite send_unblocked by done. cbn [fst snd]. fold req1.
  set (s0 := (submit_begin uuid (setInput text s)).1).
  set (s1 := finish (transport1 req1) s0).
  destruct (submit_begin_state uuid text s) as (_ & _ & Hlast & _ & Hsid).
  fold s0 req1 in Hlast, Hsid.
  destruct (finish_state (transport1 req1) s0) as (Hl1 & _ & Hs1 & Hu1).
  fold s1 in Hl1, Hs1, Hu1.
  assert (Hreq : (retry_begin s1).2 = req1).
  { unfold retry_begin. cbn [snd]. rewrite Hu1, Hs1, Hlast, Hsid. cbn [default].
    subst req1. unfold submit_begin. cbn [snd session_id setInput input sessionId].
    f_equal.
    destruct (sessionId s) as [x|]; cbn [Js.truthy_opt].
    - by rewrite andb_negb_r.
    - destruct uuid as [[|c u]|]; cbn; done. }
  assert (Htr : Js.truthy_opt (lastUserMessage s1) = true).
  { rewrite Hu1, Hlast. cbn. by destruct (Js.trim text). }
  rewrite (retry_unblocked transport2 s1 Hl1 Htr). cbn [fst snd]. rewrite Hreq.
  fold run2.
  assert (Hm : messages (retry_begin s1).1
               = messages s1 ++ [{| role := assistant; content := [] |}]) by done.
  split; [done|]. split; [done|]. split; [done|]. split; [done|].
  split; [by apply finish_messages|].
  intros Ho2. destruct (finish_state run2 (retry_begin s1).1) as (-> & -> & _).
  by rewrite Ho2.
Qed.

(** Scenario B, then Scenario E. *)
Lemma C6_retry_repeats_request_witness :
  isLoading initial = false
  /\ Js.trim (js "hi") <> []
  /\ Some (js "3f0c1d2e") <> Some []
  /\ outcome (page_transport (always (FetchResponse boom))
               (submit_begin (Some (js "3f0c1d2e")) (setInput (js "hi") initial)).2)
     = Rejected (ErrorObj (js "boom (request_id=req-999)"))
  /\ (retry (page_transport (always (FetchResponse fixed))) after_boom).2
     = [{| message := js "hi"; session_id := Some (js "3f0c1d2e") |}]
  /\ messages (retry (page_transport (always (FetchResponse fixed))) after_boom).1
     = [greeting; {| role := user; content := js "hi" |};
        {| role := assistant; content := apology |};
        {| role := assistant; content := js "Fixed" |}].
Proof.
  assert (H1 : isLoading initial = false) by reflexivity.
  assert (H2 : Js.trim (js "hi") <> []) by (vm_compute; discriminate).
  assert (H3 : Some (js "3f0c1d2e") <> Some []) by (vm_compute; discriminate).
  assert (H4 : outcome (page_transport (always (FetchResponse boom))
                 (submit_begin (Some (js "3f0c1d2e")) (setInput (js "hi") initial)).2)
               = Rejected (ErrorObj (js "boom (request_id=req-999)"))) by reflexivity.
  split; [exact H1|]. split; [exact H2|]. split; [exact H3|]. split; [exact H4|].
  destruct (C6_retry_repeats_request
              (page_transport (always (FetchResponse boom)))
              (page_transport (always (FetchResponse fixed)))
              (Some (js "3f0c1d2e")) (js "hi") initial
              (ErrorObj (js "boom (request_id=req-999)")) H1 H2 H3 H4)
    as (_ & Hr & _ & _ & Hm & _).
  split; [exact Hr | exact Hm].
Defined.

(** C8, as stated, fails: Scenario B stored "req-999"; a retry whose
    request never completes yields no correlation id, and the page still
    holds and shows "req-999" next to the new error. *)
Lemma C8_stale_request_id_shown :
  let transport := page_transport (always offline) in
  let s' := (retry transport after_boom).1 in
  requestId after_boom = Some (js "req-999")
  /\ attempt_request_id (transport (retry_begin after_boom).2) = None
  /\ errorMessage s' = Some (js "Failed to fetch")
  /\ requestId s' = Some (js "req-999")
  /\ request_id_line s' = js "request_id=req-999".
Proof. vm_compute. repeat split. Qed.

(** C8, amended: an attempt (send or retry) overwrites the stored
    correlation id exactly when it yields one, through a truthy [onStart]
    id or a match of the pattern in the error text; an attempt that yields
    none leaves the stored id as it was. *)
Theorem C8_request_id_overwritten_when_yielded transport uuid text s :
  isLoading s = false ->
  (Js.trim text <> [] ->
   requestId (send transport uuid text s).1
   = match attempt_request_id (transport (submit_begin uuid (setInput text s)).2) with
     | Some id => Some id
     | None => requestId s
     end)
  /\ (Js.truthy_opt (lastUserMessage s) = true ->
      requestId (retry transport s).1
      = match attempt_request_id (transport (retry_begin s).2) with
        | Some id => Some id
        | None => requestId s
        end).
Proof.
  intros Hl. split.
  - intros Ht. rewrite send_unblocked by done. cbn [fst].
    rewrite finish_requestId.
    destruct (submit_begin_state uuid text s) as (_ & _ & _ & -> & _).
    by destruct (attempt_request_id _).
  - intros Ht. rewrite retry_unblocked by done. cbn [fst].
    rewrite finish_requestId. by destruct (attempt_request_id _).
Qed.

Lemma C8_request_id_overwritten_when_yielded_witness :
  isLoading after_boom = false
  /\ Js.truthy_opt (lastUserMessage after_boom) = true
  /\ requestId (retry (page_transport (always (FetchResponse hello_world))) after_boom).1
     = Some (js "req-456").
Proof.
  assert (H1 : isLoading after_boom = false) by reflexivity.
  assert (H2 : Js.truthy_opt (lastUserMessage after_boom) = true) by reflexivity.
  split; [exact H1|]. split; [exact H2|].
  exact (proj2 (C8_request_id_overwritten_when_yielded
                  (page_transport (always (FetchResponse hello_world)))
                  None [] after_boom H1) H2).
Defined.

End RetryClaims.

Section TranscriptInvariant.
Import Api Chat.

Lemma chunk_update_last l x c :
  exists y, chunk_update c (l ++ [x]) = l ++ [y].
Proof.
  unfold chunk_update. rewrite last_snoc.
  destruct (bool_decide (role x = assistant)); [|by eauto].
  rewrite insert_last. eauto.
Qed.

Lemma apology_update_keeps_front l x :
  exists y u, apology_update (l ++ [x]) = l ++ y :: u.
Proof.
  unfold apology_update. rewrite last_snoc.
  destruct (_ && _).
  - rewrite insert_last. eauto.
  - rewrite <- app_assoc. cbn. eauto.
Qed.

Lemma apology_update_last l x :
  exists t, apology_update (l ++ [x]) = l ++ t.
Proof.
  unfold apology_update. rewrite last_snoc.
  destruct (_ && _).
  - rewrite insert_last. eauto.
  - rewrite <- app_assoc. eauto.
Qed.

Lemma greeted_initial : greeted initial.
Proof. exists []. split; [done | discriminate]. Qed.

Lemma greeted_step s e : greeted s -> greeted (step s e).
Proof.
  intros Hs. pose proof Hs as (rest & Hm & Hbusy).
  assert (Hap : rest <> [] -> forall err,
            exists r, messages (applyStreamError err s) = greeting :: r /\ r <> []).
  { intros Hne err. unfold applyStreamError.
    assert (exists r, apology_update (messages s) = greeting :: r /\ r <> [])
      as (r & Hr & Hr').
    { rewrite Hm. destruct rest as [|x rest _] using rev_ind; [done|].
      change (greeting :: rest ++ [x]) with ((greeting :: rest) ++ [x]).
      destruct (apology_update_keeps_front (greeting :: rest) x) as (y & u & ->).
      exists (rest ++ y :: u). split; [done|]. by destruct rest. }
    exists r. split; [|done].
    destruct (Js.match_request_id (error_text err)); cbn; done. }
  destruct e as [v|uuid| |ev|o|err| ]; cbn [step].
  - destruct (isLoading s) eqn:E; [exact Hs|].
    exists rest. cbn. split; [done|]. by rewrite E.
  - destruct (submit_blocked s); [exact Hs|].
    unfold submit_begin. cbn [fst].
    exists ((rest ++ [{| role := user; content := Js.trim (input s) |}])
            ++ [{| role := assistant; content := [] |}]).
    split; [|intros _; by destruct rest].
    destruct (_ && _); cbn; by rewrite Hm.
  - destruct (_ || _); [exact Hs|].
    exists (rest ++ [{| role := assistant; content := [] |}]). cbn. rewrite Hm.
    split; [done|]. intros _. by destruct rest.
  - destruct (isLoading s) eqn:E; [|exact Hs].
    destruct ev as [meta|c]; cbn [deliver].
    + unfold onStart. destruct (Js.truthy_opt meta); [|exact Hs].
      exists rest. cbn. by rewrite E.
    + unfold greeted, onChunk. cbn [setMessages messages isLoading]. rewrite Hm, E.
      destruct rest as [|x rest _] using rev_ind; [by destruct (Hbusy eq_refl)|].
      change (greeting :: rest ++ [x]) with ((greeting :: rest) ++ [x]).
      destruct (chunk_update_last (greeting :: rest) x c) as [y ->].
      exists (rest ++ [y]). split; [done|]. intros _. by destruct rest.
  - destruct (isLoading s) eqn:E; [|exact Hs].
    unfold settle.
    assert (exists rest', messages match o with
                          | Resolved => s
                          | Rejected e => applyStreamError e s
                          end = greeting :: rest') as [rest' Hr].
    { destruct o as [|e]; [by eauto|].
      unfold applyStreamError.
      assert (exists r, apology_update (messages s) = greeting :: r) as [r Hr].
      { rewrite Hm. destruct rest as [|x rest _] using rev_ind; [by destruct (Hbusy eq_refl)|].
        change (greeting :: rest ++ [x]) with ((greeting :: rest) ++ [x]).
        destruct (apology_update_last (greeting :: rest) x) as [t ->]. by eexists. }
      destruct (Js.match_request_id (error_text e)); cbn; eauto. }
    exists rest'. split; [exact Hr | discriminate].
  - destruct (isLoading s) eqn:E; [|exact Hs].
    cbn [retry_catch]. destruct (Hap (Hbusy eq_refl) err) as (r & Hr & Hne).
    exists r. split; [exact Hr | done].
  - destruct (isLoading s) eqn:E; [|exact Hs].
    exists rest. split; [exact Hm | discriminate].
Qed.

Lemma greeted_run evs : forall s, greeted s -> greeted (foldl step s evs).
Proof.
  induction evs as [|e evs IH]; intros s Hs; [done|].
  cbn [foldl]. by apply IH, greeted_step.
Qed.

Lemma step_deliver evs : forall s,
  isLoading s = true -> foldl step s (TrEvent <$> evs) = foldl deliver s evs.
Proof.
  induction evs as [|ev evs IH]; intros s Hs; [done|].
  cbn [fmap list_fmap foldl step]. rewrite Hs. apply IH.
  destruct (deliver_frame [ev] s) as (H & _). cbn [foldl] in H. by rewrite H.
Qed.

(** A send that passes its guard is a run of the transition system: the
    form events, the callbacks of the transport, and its settlement. *)
Lemma send_as_events transport uuid text s :
  isLoading s = false ->
  Js.trim text <> [] ->
  let run := transport (submit_begin uuid (setInput text s)).2 in
  (send transport uuid text s).1
  = foldl step s ([UiInput text; UiSubmit uuid]
                  ++ (TrEvent <$> events run) ++ [TrSettle (outcome run)]).
Proof.
  intros Hl Ht run. rewrite send_unblocked by done. cbn [fst app foldl].
  cbn [step]. rewrite Hl.
  assert (submit_blocked (setInput text s) = false) as ->.
  { unfold submit_blocked. cbn [setInput input isLoading]. rewrite Hl.
    by destruct (Js.trim text). }
  destruct (submit_begin_state uuid text s) as (Hb & _).
  rewrite foldl_app, step_deliver by done. cbn [foldl step].
  destruct (deliver_frame (events run) (submit_begin uuid (setInput text s)).1) as (-> & _).
  by rewrite Hb.
Qed.

(** The Retry handler likewise. *)
Lemma retry_as_events transport s :
  isLoading s = false ->
  Js.truthy_opt (lastUserMessage s) = true ->
  error_notice_shown s = true ->
  let run := transport (retry_begin s).2 in
  (retry transport s).1
  = foldl step s ([UiRetry] ++ (TrEvent <$> events run)
                  ++ retry_reactions (outcome run)).
Proof.
  intros Hl Ht He run. rewrite retry_unblocked by done. cbn [fst app foldl].
  cbn [step]. unfold retry_blocked. rewrite He, Hl, Ht. cbn [negb orb].
  rewrite foldl_app, step_deliver by done.
  destruct (deliver_frame (events run) (retry_begin s).1) as (Hb & _).
  change (isLoading (retry_begin s).1) with true in Hb.
  unfold finish, settle, retry_reactions. fold run.
  destruct (outcome run) as [|e]; cbn [foldl step retry_catch].
  - by rewrite Hb.
  - rewrite Hb.
    assert (isLoading (applyStreamError e (foldl deliver (retry_begin s).1 (events run)))
            = true) as ->; [|done].
    unfold applyStreamError.
    by destruct (Js.match_request_id (error_text e)).
Qed.

(** C10: every state the page reaches, through any sequence of typing,
    submits, retries, transport callbacks and settlements, has a transcript
    that starts with the greeting, an assistant Message; so the transcript
    is never empty and no handler removes or alters the greeting. *)
Theorem C10_greeting_heads_transcript evs :
  role greeting = assistant
  /\ exists rest, messages (run_events evs) = greeting :: rest.
Proof.
  split; [done|].
  destruct (greeted_run evs initial greeted_initial) as (rest & H & _). eauto.
Qed.

End TranscriptInvariant.

(** ** More on the string primitives *)
Section TrimFacts.

Lemma trimStart_idem s : Js.trimStart (Js.trimStart s) = Js.trimStart s.
Proof.
  induction s as [|c r IH]; [done|]. cbn.
  destruct (Js.is_white_space c) eqn:E; [done|]. cbn. by rewrite E.
Qed.

Lemma trimStart_snoc a c :
  Js.is_white_space c = false -> Js.trimStart (a ++ [c]) = Js.trimStart a ++ [c].
Proof.
  intros Hc. induction a as [|x a IH]; cbn.
  - by rewrite Hc.
  - by destruct (Js.is_white_space x).
Qed.

Lemma trimEnd_cons c r :
  Js.is_white_space c = false -> exists r', Js.trimEnd (c :: r) = c :: r'.
Proof.
  intros Hc. unfold Js.trimEnd. rewrite reverse_cons, trimStart_snoc by done.
  rewrite reverse_app. cbn. eauto.
Qed.

Lemma trimStart_head s c r :
  Js.trimStart s = c :: r -> Js.is_white_space c = false.
Proof.
  induction s as [|x s IH]; [done|]. cbn.
  destruct (Js.is_white_space x) eqn:E; [done|]. by intros [= <- _].
Qed.

Lemma trimEnd_idem s : Js.trimEnd (Js.trimEnd s) = Js.trimEnd s.
Proof.
  unfold Js.trimEnd. by rewrite reverse_involutive, trimStart_idem.
Qed.

(** [trim] is idempotent. *)
Lemma trim_idem s : Js.trim (Js.trim s) = Js.trim s.
Proof.
  unfold Js.trim. destruct (Js.trimStart s) as [|c r] eqn:E; [done|].
  pose proof (trimStart_head _ _ _ E) as Hc.
  destruct (trimEnd_cons c r Hc) as [r' Hr]. rewrite Hr.
  cbn [Js.trimStart]. rewrite Hc, <- Hr. apply trimEnd_idem.
Qed.

(** A trimmed text neither starts nor ends with white space. *)
Lemma trim_head s c r : Js.trim s = c :: r -> Js.is_white_space c = false.
Proof.
  unfold Js.trim. destruct (Js.trimStart s) as [|c' r'] eqn:E; [done|].
  pose proof (trimStart_head _ _ _ E) as Hc.
  destruct (trimEnd_cons c' r' Hc) as [r'' ->]. by intros [= <- _].
Qed.

Lemma trim_last s c : last (Js.trim s) = Some c -> Js.is_white_space c = false.
Proof.
  unfold Js.trim, Js.trimEnd.
  destruct (Js.trimStart (reverse (Js.trimStart s))) as [|x r] eqn:E; [done|].
  rewrite reverse_cons, last_snoc. intros [= <-].
  by apply trimStart_head in E.
Qed.

(** [trim] gives the empty string exactly on white space. *)
Lemma trimStart_nil s :
  Js.trimStart s = [] -> Forall (fun c => Js.is_white_space c = true) s.
Proof.
  induction s as [|c r IH]; [done|]. cbn.
  destruct (Js.is_white_space c) eqn:E; [|done]. intros H. constructor; auto.
Qed.

Lemma trim_nil s :
  Js.trim s = [] <-> Forall (fun c => Js.is_white_space c = true) s.
Proof.
  split; [|apply trim_white].
  unfold Js.trim. destruct (Js.trimStart s) as [|c r] eqn:E.
  - intros _. by apply trimStart_nil.
  - pose proof (trimStart_head _ _ _ E) as Hc.
    destruct (trimEnd_cons c r Hc) as [r' ->]. done.
Qed.

End TrimFacts.

(** ** Invariants of the page *)
Section PageInvariants.
Import Api Chat.

Lemma filter_user_snoc_assistant (l : list Message) x :
  filter (fun m => role m = user) (l ++ [{| role := assistant; content := x |}])
  = filter (fun m => role m = user) l.
Proof.
  rewrite filter_app. cbn. rewrite decide_False by done. cbn. apply app_nil_r.
Qed.

Lemma filter_user_snoc_user (l : list Message) x :
  filter (fun m => role m = user) (l ++ [{| role := user; content := x |}])
  = filter (fun m => role m = user) l ++ [{| role := user; content := x |}].
Proof. rewrite filter_app. cbn. by rewrite decide_True. Qed.

Lemma apology_update_shape l x :
  apology_update (l ++ [{| role := assistant; content := x |}])
  = l ++ [{| role := assistant; content := apology |}]
  \/ apology_update (l ++ [{| role := assistant; content := x |}])
     = (l ++ [{| role := assistant; content := x |}])
       ++ [{| role := assistant; content := apology |}].
Proof.
  destruct x as [|c x].
  - left. apply apology_update_empty.
  - right. apply apology_update_other. intros m. rewrite last_snoc.
    intros [= <-]. by right.
Qed.

Lemma well_formed_initial : well_formed initial.
Proof.
  split; cbn; try done.
  - intros [H|[x H]]; discriminate.
  - intros m ->%list_elem_of_singleton. done.
Qed.

Lemma well_formed_submit uuid s :
  well_formed s -> submit_blocked s = false ->
  well_formed (submit_begin uuid s).1.
Proof.
  intros [H2 H3 H4 H5] Hb.
  unfold submit_blocked in Hb. apply orb_false_elim in Hb as [Ht Hl].
  apply negb_false_iff in Ht.
  change (submit_begin uuid s) with (submit_begin uuid (setInput (input s) s)).
  destruct (submit_begin_state uuid (input s) s) as (Hb1 & Hb2 & Hb3 & _ & _).
  pose proof (submit_begin_messages uuid (input s) s) as Hm.
  split.
  - rewrite Hb3, Hm, filter_user_snoc_assistant, filter_user_snoc_user, last_snoc.
    done.
  - intros _. by rewrite Hb3.
  - intros _. eauto.
  - intros m. rewrite Hm, !elem_of_app, !list_elem_of_singleton.
    intros [[Hin| ->]| ->] Hr; [by apply H5 | | done]. cbn.
    split; [by destruct (Js.trim (input s)) | apply trim_idem].
Qed.

Lemma well_formed_retry s :
  well_formed s -> retry_blocked s = false -> well_formed (retry_begin s).1.
Proof.
  intros [H2 H3 H4 H5] Hb.
  unfold retry_blocked in Hb. apply orb_false_elim in Hb as [Ht Hl].
  apply negb_false_iff in Ht.
  split; cbn.
  - by rewrite filter_user_snoc_assistant.
  - done.
  - eauto.
  - intros m. rewrite elem_of_app, list_elem_of_singleton.
    intros [Hin| ->] Hr; [by apply H5 | done].
Qed.

Lemma well_formed_deliver s ev :
  well_formed s -> isLoading s = true -> well_formed (deliver s ev).
Proof.
  intros [H2 H3 H4 H5] Hl. destruct ev as [meta|c]; cbn [deliver].
  - unfold onStart. destruct (Js.truthy_opt meta); by split.
  - destruct (H4 Hl) as (l & x & Hm).
    assert (Hm' : messages (onChunk c s)
                  = l ++ [{| role := assistant; content := x ++ c |}]).
    { unfold onChunk. cbn. rewrite Hm. apply chunk_update_snoc. }
    split.
    + rewrite Hm', filter_user_snoc_assistant.
      cbn [onChunk setMessages lastUserMessage].
      by rewrite H2, Hm, filter_user_snoc_assistant.
    + done.
    + intros _. eauto.
    + intros m. rewrite Hm', elem_of_app, list_elem_of_singleton.
      intros [Hin| ->] Hr; [|done]. apply H5; [|done].
      rewrite Hm, elem_of_app. by left.
Qed.

(** The [catch] reaction keeps the invariant, and the page busy. *)
Lemma well_formed_catch s e :
  well_formed s -> isLoading s = true ->
  well_formed (applyStreamError e s) /\ isLoading (applyStreamError e s) = true.
Proof.
  intros [H2 H3 H4 H5] Hl. destruct (H4 Hl) as (l & x & Hm).
  assert (Hs : lastUserMessage (applyStreamError e s) = lastUserMessage s
               /\ isLoading (applyStreamError e s) = isLoading s
               /\ messages (applyStreamError e s) = apology_update (messages s)).
  { unfold applyStreamError. by destruct (Js.match_request_id (error_text e)). }
  destruct Hs as (Hu & Hl' & Hmm). split; [|by rewrite Hl'].
  split.
  - rewrite Hu, Hmm, H2, Hm.
    destruct (apology_update_shape l x) as [-> | ->];
      by rewrite !filter_user_snoc_assistant.
  - intros _. rewrite Hu. apply H3. by left.
  - intros _. rewrite Hmm, Hm.
    destruct (apology_update_shape l x) as [-> | ->]; eauto.
  - intros m. rewrite Hmm, Hm.
    destruct (apology_update_shape l x) as [-> | ->];
      rewrite !elem_of_app, !list_elem_of_singleton.
    + intros [Hin| ->] Hr; [|done]. apply H5; [|done].
      rewrite Hm, elem_of_app. by left.
    + intros [[Hin| ->]| ->] Hr; [|done|done]. apply H5; [|done].
      rewrite Hm, elem_of_app. by left.
Qed.

(** The [finally] reaction keeps the invariant. *)
Lemma well_formed_finally s :
  well_formed s -> isLoading s = true -> well_formed (setIsLoading false s).
Proof.
  intros [H2 H3 H4 H5] Hl. split; cbn; try done.
  intros _. apply H3. by left.
Qed.

Lemma well_formed_settle s o :
  well_formed s -> isLoading s = true -> well_formed (settle o s).
Proof.
  intros Hs Hl. unfold settle. destruct o as [|e].
  - by apply well_formed_finally.
  - destruct (well_formed_catch s e Hs Hl) as [Hw Hl'].
    by apply well_formed_finally.
Qed.

Lemma well_formed_step s e : well_formed s -> well_formed (step s e).
Proof.
  intros Hs. destruct e as [v|uuid| |ev|o|err| ]; cbn [step].
  - destruct (isLoading s); [done|]. destruct Hs. by split.
  - destruct (submit_blocked s) eqn:E; [done|]. by apply well_formed_submit.
  - destruct (negb (error_notice_shown s)); [done|]. cbn [orb].
    destruct (retry_blocked s) eqn:E; [done|]. by apply well_formed_retry.
  - destruct (isLoading s) eqn:E; [|done]. by apply well_formed_deliver.
  - destruct (isLoading s) eqn:E; [|done]. by apply well_formed_settle.
  - destruct (isLoading s) eqn:E; [|done]. cbn [retry_catch].
    by apply well_formed_catch.
  - destruct (isLoading s) eqn:E; [|done]. by apply well_formed_finally.
Qed.

Lemma well_formed_run evs : forall s, well_formed s -> well_formed (foldl step s evs).
Proof.
  induction evs as [|e evs IH]; intros s Hs; [done|].
  cbn [foldl]. by apply IH, well_formed_step.
Qed.

End PageInvariants.

Section PageProperties.
Import Api Chat Scenarios.

(** X1: an attempt starts without an error and shows none while it
    streams: once a submit or a click on Retry is let through, the page is
    busy and holds no error, and this stays so through every [onStart] and
    [onChunk] callback of the transport, so an old error notice is gone for
    as long as the reply is coming in. *)
Theorem no_error_while_streaming s uuid (cbs : list StreamEvent) :
  (submit_blocked s = false ->
   isLoading (foldl step s (UiSubmit uuid :: (TrEvent <$> cbs))) = true
   /\ errorMessage (foldl step s (UiSubmit uuid :: (TrEvent <$> cbs))) = None)
  /\ (error_notice_shown s = true -> retry_blocked s = false ->
      isLoading (foldl step s (UiRetry :: (TrEvent <$> cbs))) = true
      /\ errorMessage (foldl step s (UiRetry :: (TrEvent <$> cbs))) = None).
Proof.
  split.
  - intros Hb. cbn [foldl step]. rewrite Hb.
    change (submit_begin uuid s) with (submit_begin uuid (setInput (input s) s)).
    destruct (submit_begin_state uuid (input s) s) as (Hl & He & _).
    rewrite step_deliver by done.
    destruct (deliver_frame cbs (submit_begin uuid (setInput (input s) s)).1)
      as (-> & -> & _).
    done.
  - intros Hs Hb. cbn [foldl step]. rewrite Hs, Hb. cbn [negb orb].
    rewrite step_deliver by done.
    destruct (deliver_frame cbs (retry_begin s).1) as (-> & -> & _).
    done.
Qed.

Lemma no_error_while_streaming_witness :
  error_notice_shown after_boom = true
  /\ retry_blocked after_boom = false
  /\ errorMessage after_boom = Some (js "boom (request_id=req-999)")
  /\ errorMessage
       (foldl step after_boom
          (UiRetry :: (TrEvent <$> [EvStart None; EvChunk (js "Fix"); EvChunk (js "ed")])))
     = None.
Proof.
  assert (H1 : error_notice_shown after_boom = true) by reflexivity.
  assert (H2 : retry_blocked after_boom = false) by reflexivity.
  split; [exact H1|]. split; [exact H2|]. split; [reflexivity|].
  exact (proj2 (proj2 (no_error_while_streaming after_boom None
                         [EvStart None; EvChunk (js "Fix"); EvChunk (js "ed")])
                  H1 H2)).
Defined.

(** X2: whenever the error notice (and so the Retry button) is shown and
    the page is not busy, a click on Retry is not blocked: it starts an
    attempt, and the text it sends is the content of the last user Message
    of the transcript, which is not empty.  (Between the two reactions of a
    failed Retry attempt the notice is shown while the page is still busy;
    there the click is blocked by the busy flag.) *)
Theorem retry_available_when_error_shown evs :
  error_notice_shown (run_events evs) = true ->
  isLoading (run_events evs) = false ->
  let s := run_events evs in
  step s UiRetry = (retry_begin s).1
  /\ isLoading (step s UiRetry) = true
  /\ (exists m, last (filter (fun m => role m = user) (messages s)) = Some m
                /\ message (retry_begin s).2 = content m)
  /\ message (retry_begin s).2 <> [].
Proof.
  intros Hshown Hl s.
  destruct (well_formed_run evs initial well_formed_initial) as [H2 H3 _ _].
  fold (run_events evs) in H2, H3. fold s in H2, H3, Hshown, Hl.
  assert (He : is_Some (errorMessage s)).
  { unfold error_notice_shown in Hshown. destruct (errorMessage s); [by eauto|done]. }
  assert (Hu : Js.truthy_opt (lastUserMessage s) = true) by (apply H3; by right).
  cbn [step]. unfold retry_blocked. rewrite Hshown, Hu, Hl. cbn [negb orb].
  split; [done|]. split; [done|].
  cbn [retry_begin snd message]. rewrite H2 in Hu |- *.
  destruct (last (filter (fun m => role m = user) (messages s))) as [m|]; [|done].
  cbn in Hu |- *. split; [by eauto|]. by destruct (content m).
Qed.

(** After a failed send, and again after a failed Retry attempt. *)
Lemma retry_available_when_error_shown_witness :
  error_notice_shown
    (run_events [UiInput (js "hi"); UiSubmit None;
                 TrSettle (Rejected (ErrorObj (js "Failed to fetch")));
                 UiRetry; TrCatch (ErrorObj (js "Failed to fetch")); TrFinally]) = true
  /\ isLoading
       (run_events [UiInput (js "hi"); UiSubmit None;
                    TrSettle (Rejected (ErrorObj (js "Failed to fetch")));
                    UiRetry; TrCatch (ErrorObj (js "Failed to fetch")); TrFinally]) = false
  /\ isLoading
       (step (run_events [UiInput (js "hi"); UiSubmit None;
                          TrSettle (Rejected (ErrorObj (js "Failed to fetch")));
                          UiRetry; TrCatch (ErrorObj (js "Failed to fetch")); TrFinally])
             UiRetry) = true.
Proof.
  assert (H : error_notice_shown
                (run_events [UiInput (js "hi"); UiSubmit None;
                             TrSettle (Rejected (ErrorObj (js "Failed to fetch")));
                             UiRetry; TrCatch (ErrorObj (js "Failed to fetch")); TrFinally])
              = true) by reflexivity.
  assert (H' : isLoading
                 (run_events [UiInput (js "hi"); UiSubmit None;
                              TrSettle (Rejected (ErrorObj (js "Failed to fetch")));
                              UiRetry; TrCatch (ErrorObj (js "Failed to fetch")); TrFinally])
               = false) by reflexivity.
  split; [exact H|]. split; [exact H'|].
  exact (proj1 (proj2 (retry_available_when_error_shown _ H H'))).
Defined.

Lemma step_keeps_front s e l x :
  messages s = l ++ [x] -> exists y t, messages (step s e) = l ++ y :: t.
Proof.
  intros Hm. destruct e as [v|uuid| |ev|o|err| ]; cbn [step].
  - destruct (isLoading s); cbn; eauto.
  - destruct (submit_blocked s); [by eauto|].
    change (submit_begin uuid s) with (submit_begin uuid (setInput (input s) s)).
    rewrite submit_begin_messages, Hm, <- !app_assoc. cbn. eauto.
  - destruct (_ || _); [by eauto|]. cbn. rewrite Hm, <- app_assoc. cbn. eauto.
  - destruct (isLoading s); [|by eauto]. destruct ev as [meta|c]; cbn [deliver].
    + unfold onStart. destruct (Js.truthy_opt meta); cbn; eauto.
    + unfold onChunk. cbn. rewrite Hm.
      destruct (chunk_update_last l x c) as [y ->]. eauto.
  - destruct (isLoading s); [|by eauto]. unfold settle.
    destruct o as [|e]; cbn [setIsLoading messages].
    + eauto.
    + assert (messages (applyStreamError e s) = apology_update (messages s)) as ->.
      { unfold applyStreamError. by destruct (Js.match_request_id (error_text e)). }
      rewrite Hm. unfold apology_update. rewrite last_snoc.
      destruct (_ && _).
      * rewrite insert_last. eauto.
      * rewrite <- app_assoc. cbn. eauto.
  - destruct (isLoading s); [|by eauto]. cbn [retry_catch].
    assert (messages (applyStreamError err s) = apology_update (messages s)) as ->.
    { unfold applyStreamError. by destruct (Js.match_request_id (error_text err)). }
    rewrite Hm. apply apology_update_keeps_front.
  - destruct (isLoading s); cbn; eauto.
Qed.

(** X3: only the last entry of the transcript is ever rewritten: through
    any sequence of events, every entry before the last one stays where it
    is, unchanged, and the transcript does not get shorter. *)
Theorem earlier_entries_are_frozen evs : forall s l x,
  messages s = l ++ [x] ->
  exists y t, messages (foldl step s evs) = l ++ y :: t.
Proof.
  induction evs as [|e evs IH]; intros s l x Hm; cbn [foldl].
  - rewrite Hm. eauto.
  - destruct (step_keeps_front s e l x Hm) as (y & t & Hs).
    destruct t as [|z t _] using rev_ind.
    + apply (IH _ l y Hs).
    + destruct (IH (step s e) (l ++ y :: t) z) as (y' & t' & ->).
      { rewrite Hs, <- app_assoc. done. }
      rewrite <- app_assoc. cbn. eauto.
Qed.

Lemma earlier_entries_are_frozen_witness :
  messages after_boom
  = [greeting; {| role := user; content := js "hi" |}]
    ++ [{| role := assistant; content := apology |}]
  /\ exists y t,
       messages (foldl step after_boom
                   [UiRetry; TrEvent (EvChunk (js "Fixed")); TrFinally])
       = [greeting; {| role := user; content := js "hi" |}] ++ y :: t.
Proof.
  assert (H : messages after_boom
              = [greeting; {| role := user; content := js "hi" |}]
                ++ [{| role := assistant; content := apology |}]) by reflexivity.
  split; [exact H|].
  exact (earlier_entries_are_frozen
           [UiRetry; TrEvent (EvChunk (js "Fixed")); TrFinally]
           after_boom _ _ H).
Defined.

(** X4: every user Message that reaches the transcript holds text that is
    not empty and carries no white space at either end. *)
Theorem user_messages_are_trimmed evs m :
  m ∈ messages (run_events evs) ->
  role m = user ->
  content m <> []
  /\ Js.trim (content m) = content m
  /\ (forall c, head (content m) = Some c -> Js.is_white_space c = false)
  /\ (forall c, last (content m) = Some c -> Js.is_white_space c = false).
Proof.
  intros Hin Hr.
  destruct (well_formed_run evs initial well_formed_initial) as [_ _ _ H].
  destruct (H m Hin Hr) as [Hne Ht]. split; [done|]. split; [done|]. split.
  - intros c Hc. destruct (content m) as [|c' r] eqn:E; [done|].
    cbn in Hc. simplify_eq. by apply (trim_head _ _ _ Ht).
  - intros c Hc. rewrite <- Ht in Hc. by apply (trim_last _ _ Hc).
Qed.

Lemma user_messages_are_trimmed_witness :
  {| role := user; content := js "hi" |}
    ∈ messages (run_events [UiInput (js "  hi "); UiSubmit None])
  /\ role {| role := user; content := js "hi" |} = user
  /\ Js.trim (js "hi") = js "hi".
Proof.
  assert (H : {| role := user; content := js "hi" |}
                ∈ messages (run_events [UiInput (js "  hi "); UiSubmit None])).
  { vm_compute. right. left. }
  split; [exact H|]. split; [reflexivity|].
  exact (proj1 (proj2 (user_messages_are_trimmed _ _ H eq_refl))).
Defined.

Lemma step_keeps_session s e :
  Js.truthy_opt (sessionId s) = true -> sessionId (step s e) = sessionId s.
Proof.
  intros Hs. destruct e as [v|uuid| |ev|o|err| ]; cbn [step].
  - by destruct (isLoading s).
  - destruct (submit_blocked s); [done|].
    unfold submit_begin. cbn [fst]. rewrite Hs, andb_false_r. done.
  - by destruct (_ || _).
  - destruct (isLoading s); [|done]. destruct ev as [meta|c]; cbn [deliver]; [|done].
    unfold onStart. by destruct (Js.truthy_opt meta).
  - destruct (isLoading s); [|done]. unfold settle. destruct o as [|e]; [done|].
    unfold applyStreamError. by destruct (Js.match_request_id (error_text e)).
  - destruct (isLoading s); [|done]. cbn [retry_catch].
    unfold applyStreamError. by destruct (Js.match_request_id (error_text err)).
  - by destruct (isLoading s).
Qed.

(** X5: once the page holds a session id, it keeps it through every
    event, and every later request, from a submit or from Retry, carries
    exactly that id, whatever [crypto.randomUUID] would return. *)
Theorem session_id_is_stable evs : forall s,
  Js.truthy_opt (sessionId s) = true ->
  let s' := foldl step s evs in
  sessionId s' = sessionId s
  /\ (forall uuid, session_id (submit_begin uuid s').2 = sessionId s)
  /\ session_id (retry_begin s').2 = sessionId s.
Proof.
  induction evs as [|e evs IH]; intros s Hs; cbn [foldl].
  - split; [done|]. split; [|done]. intros uuid. cbn.
    by destruct (sessionId s).
  - rewrite <- (step_keeps_session s e Hs). apply IH.
    by rewrite (step_keeps_session s e Hs).
Qed.

Lemma session_id_is_stable_witness :
  Js.truthy_opt (sessionId after_boom) = true
  /\ session_id (submit_begin (Some (js "another"))
       (foldl step after_boom [UiRetry; TrFinally; UiInput (js "more")])).2
     = Some (js "3f0c1d2e").
Proof.
  assert (H : Js.truthy_opt (sessionId after_boom) = true) by reflexivity.
  split; [exact H|].
  exact (proj1 (proj2 (session_id_is_stable
                         [UiRetry; TrFinally; UiInput (js "more")]
                         after_boom H)) (Some (js "another"))).
Defined.

(** X6: while an attempt is in flight the transcript ends with an
    assistant entry, so no fragment is dropped by the role test of
    [onChunk]: each one is appended to that entry. *)
Theorem fragments_always_land evs c :
  isLoading (run_events evs) = true ->
  exists l x,
    messages (run_events evs) = l ++ [{| role := assistant; content := x |}]
    /\ messages (step (run_events evs) (TrEvent (EvChunk c)))
       = l ++ [{| role := assistant; content := x ++ c |}].
Proof.
  intros Hl.
  destruct (well_formed_run evs initial well_formed_initial) as [_ _ H _].
  destruct (H Hl) as (l & x & Hm). exists l, x. split; [done|].
  unfold run_events in *.
  cbn [step]. rewrite Hl. cbn [deliver]. unfold onChunk. cbn [setMessages messages].
  rewrite Hm. apply chunk_update_snoc.
Qed.

Lemma fragments_always_land_witness :
  isLoading (run_events [UiInput (js "hi"); UiSubmit None;
                         TrEvent (EvChunk (js "Hel"))]) = true
  /\ exists l x,
       messages (step (run_events [UiInput (js "hi"); UiSubmit None;
                                   TrEvent (EvChunk (js "Hel"))])
                      (TrEvent (EvChunk (js "lo"))))
       = l ++ [{| role := assistant; content := x ++ js "lo" |}].
Proof.
  assert (H : isLoading (run_events [UiInput (js "hi"); UiSubmit None;
                                     TrEvent (EvChunk (js "Hel"))]) = true)
    by reflexivity.
  split; [exact H|].
  destruct (fragments_always_land _ (js "lo") H) as (l & x & _ & Hm).
  exists l, x. exact Hm.
Defined.

End PageProperties.

Section StreamProperties.
Import Api Chat Scenarios.

Lemma for_lines_no_sentinel lines : done_sentinel ∉ (for_lines lines).1.
Proof.
  induction lines as [|line rest IH]; cbn [for_lines]; [by apply not_elem_of_nil|].
  destruct (Js.startsWith data_prefix line); [|done].
  destruct (decide (Js.slice 6 line = done_sentinel)) as [|Hne];
    [by apply not_elem_of_nil|].
  destruct (for_lines rest) as [fs d]. cbn [fst] in *.
  intros [Heq|Hin]%elem_of_cons; [by apply Hne | by apply IH].
Qed.

Lemma read_loop_no_sentinel err rs : done_sentinel ∉ (read_loop rs err).1.
Proof.
  induction rs as [|c rest IH]; cbn [read_loop]; [by apply not_elem_of_nil|].
  pose proof (for_lines_no_sentinel (split_frames c)) as Hc.
  destruct (for_lines (split_frames c)) as [fs [|]]; [done|].
  destruct (read_loop rest err) as [gs o]. cbn [fst] in *.
  intros [?|?]%elem_of_app; [by apply Hc | by apply IH].
Qed.

Lemma fragments_success (w : bool) rid (fs : list JsString) o :
  fragments {| events := (if w then [EvStart rid] else []) ++ (EvChunk <$> fs);
               outcome := o |} = fs.
Proof.
  apply fragments_of_run. intros ev. destruct w; [|by intros ?%elem_of_nil].
  intros ->%list_elem_of_singleton. eauto.
Qed.

(** X7: the sentinel is never handed to [onChunk]: whatever the network
    answers, no forwarded fragment is the text [[DONE]]. *)
Theorem sentinel_is_never_forwarded fetch request w :
  done_sentinel ∉ fragments (streamChatMessage fetch request w).
Proof.
  unfold streamChatMessage.
  destruct (fetch _) as [e|r]; [by apply not_elem_of_nil|].
  destruct (ok r), (body r) as [b|]; try by apply not_elem_of_nil.
  pose proof (read_loop_no_sentinel (read_error b) (reads b)) as H.
  destruct (read_loop (reads b) (read_error b)) as [fs o].
  by rewrite fragments_success.
Qed.

Lemma for_lines_sentinel lines :
  js "data: [DONE]" ∈ lines -> (for_lines lines).2 = true.
Proof.
  induction lines as [|line rest IH]; [by intros ?%elem_of_nil|].
  intros [<-|Hin]%elem_of_cons; cbn [for_lines].
  - reflexivity.
  - destruct (Js.startsWith data_prefix line); [|by apply IH].
    destruct (decide (Js.slice 6 line = done_sentinel)); [done|].
    specialize (IH Hin). by destruct (for_lines rest).
Qed.

Lemma read_loop_stops pre c rest rest' err err' :
  (for_lines (split_frames c)).2 = true ->
  read_loop (pre ++ c :: rest) err = read_loop (pre ++ c :: rest') err'
  /\ (read_loop (pre ++ c :: rest) err).2 = Resolved.
Proof.
  intros Hc. induction pre as [|p pre [IH1 IH2]]; cbn [app read_loop].
  - destruct (for_lines (split_frames c)) as [fs d]. cbn in Hc. by subst d.
  - destruct (for_lines (split_frames p)) as [fs [|]]; [done|].
    rewrite IH1 in IH2 |- *.
    destruct (read_loop (pre ++ c :: rest') err') as [gs o]. cbn in IH2. by subst o.
Qed.

(** X8: the sentinel ends the stream at once and with success: when a
    chunk holds the frame [data: [DONE]], whatever would be read after that
    chunk, further text or a failure of the connection, changes neither the
    callbacks nor the settlement, and the promise resolves. *)
Theorem nothing_is_read_after_sentinel request w st txt rid pre c rest rest' err err' :
  js "data: [DONE]" ∈ split_frames c ->
  let response rs e :=
    FetchResponse {| ok := true; status := st; text_ := txt; x_request_id := rid;
                     body := Some {| reads := rs; read_error := e |} |} in
  streamChatMessage (always (response (pre ++ c :: rest) err)) request w
  = streamChatMessage (always (response (pre ++ c :: rest') err')) request w
  /\ outcome (streamChatMessage (always (response (pre ++ c :: rest) err)) request w)
     = Resolved.
Proof.
  intros Hc%for_lines_sentinel response.
  unfold streamChatMessage, always, response. cbn [ok body reads read_error x_request_id].
  destruct (read_loop_stops pre c rest rest' err err' Hc) as [H1 H2].
  rewrite H1 in H2 |- *.
  destruct (read_loop (pre ++ c :: rest') err') as [fs o]. cbn in H2. by subst o.
Qed.

Lemma nothing_is_read_after_sentinel_witness :
  js "data: [DONE]" ∈ split_frames (sse (js "Fixed") ++ sse (js "[DONE]"))
  /\ outcome (streamChatMessage
       (always (FetchResponse (ok_response None
          {| reads := [] ++ (sse (js "Fixed") ++ sse (js "[DONE]")) :: [sse (js "late")];
             read_error := Some (ErrorObj (js "network error")) |})))
       {| message := js "hi"; session_id := None |} true) = Resolved.
Proof.
  assert (H : js "data: [DONE]" ∈ split_frames (sse (js "Fixed") ++ sse (js "[DONE]"))).
  { vm_compute. right. left. }
  split; [exact H|].
  exact (proj2 (nothing_is_read_after_sentinel
                  {| message := js "hi"; session_id := None |} true 200 (Some []) None
                  [] _ [sse (js "late")] [] (Some (ErrorObj (js "network error"))) None H)).
Defined.

(** A line without a line feed, followed by the delimiter, is cut off as
    one piece. *)
Lemma split_line line rest :
  10%N ∉ line ->
  Js.split2 10 10 (line ++ 10%N :: 10%N :: rest) = line :: Js.split2 10 10 rest.
Proof.
  induction line as [|c l IH]; intros Hl.
  - cbn [app]. rewrite split2_cons2. reflexivity.
  - assert (c <> 10%N) as Hc by (intros ->; apply Hl; by left).
    assert (10%N ∉ l) as Hl' by (intros ?; apply Hl; by right).
    cbn [app]. destruct (l ++ 10%N :: 10%N :: rest) as [|d r] eqn:E.
    { by destruct l. }
    rewrite split2_cons2, (IH Hl').
    apply N.eqb_neq in Hc. rewrite Hc. reflexivity.
Qed.

Lemma sse_group_frames (g : list JsString) rest :
  Forall (fun p => 10%N ∉ p) g ->
  Js.split2 10 10 (concat (sse <$> g) ++ rest)
  = ((fun p => js "data: " ++ p) <$> g) ++ Js.split2 10 10 rest.
Proof.
  induction 1 as [|p g Hp _ IH]; [done|].
  cbn [fmap list_fmap concat]. unfold sse at 1, nn.
  rewrite <- !app_assoc. cbn [app].
  rewrite (app_assoc (js "data: ") p), split_line.
  - by rewrite IH.
  - intros [Hin|Hin]%elem_of_app; [|done].
    vm_compute in Hin. repeat (apply elem_of_cons in Hin as [Hin|Hin]; [done|]).
    by apply elem_of_nil in Hin.
Qed.

Lemma for_lines_payloads (g : list JsString) lines :
  Forall (fun p => p <> done_sentinel) g ->
  for_lines (((fun p => js "data: " ++ p) <$> g) ++ lines)
  = (g ++ (for_lines lines).1, (for_lines lines).2).
Proof.
  induction 1 as [|p g Hp _ IH]; cbn [fmap list_fmap app].
  - by destruct (for_lines lines).
  - cbn [for_lines].
    assert (Js.startsWith data_prefix (js "data: " ++ p) = true) as -> by reflexivity.
    assert (Js.slice 6 (js "data: " ++ p) = p) as -> by reflexivity.
    rewrite decide_False by done. by rewrite IH.
Qed.

Lemma read_loop_groups (groups : list (list JsString)) tail err :
  Forall (Forall (fun p => (10%N ∉ p) /\ p <> done_sentinel)) groups ->
  read_loop (((fun g => concat (sse <$> g)) <$> groups) ++ tail) err
  = (concat groups ++ (read_loop tail err).1, (read_loop tail err).2).
Proof.
  induction 1 as [|g groups Hg _ IH]; cbn [fmap list_fmap app concat].
  - by destruct (read_loop tail err).
  - cbn [read_loop]. unfold split_frames.
    rewrite <- (app_nil_r (concat (sse <$> g))), sse_group_frames.
    2:{ eapply Forall_impl; [exact Hg|]. by intros p [? _]. }
    rewrite for_lines_payloads.
    2:{ eapply Forall_impl; [exact Hg|]. by intros p [_ ?]. }
    cbn. rewrite IH. by rewrite app_nil_r, <- app_assoc.
Qed.

(** X9: records round-trip.  When the service writes payloads that hold
    no line feed and are not the sentinel, each as a record [data: payload]
    and a blank line, and the network delivers them in chunks of whole
    records, however grouped, the fragments forwarded are exactly those
    payloads in order.  If the sentinel record follows, the promise
    resolves whatever comes after it; if the body just ends or the
    connection fails, the promise settles accordingly after all payloads
    were forwarded. *)
Theorem records_round_trip request w st txt rid (groups : list (list JsString)) rest err :
  Forall (Forall (fun p => (10%N ∉ p) /\ p <> done_sentinel)) groups ->
  let chunks := (fun g => concat (sse <$> g)) <$> groups in
  let run rs e :=
    streamChatMessage
      (always (FetchResponse
         {| ok := true; status := st; text_ := txt; x_request_id := rid;
            body := Some {| reads := rs; read_error := e |} |})) request w in
  fragments (run (chunks ++ sse done_sentinel :: rest) err) = concat groups
  /\ outcome (run (chunks ++ sse done_sentinel :: rest) err) = Resolved
  /\ fragments (run chunks err) = concat groups
  /\ outcome (run chunks err)
     = match err with None => Resolved | Some e => Rejected e end.
Proof.
  intros Hg chunks run. subst run chunks.
  unfold streamChatMessage, always. cbn [ok body reads read_error x_request_id].
  rewrite (read_loop_groups groups (sse done_sentinel :: rest) err Hg).
  pose proof (read_loop_groups groups [] err Hg) as H0. rewrite app_nil_r in H0.
  rewrite H0.
  assert (read_loop (sse done_sentinel :: rest) err = ([], Resolved)) as -> by reflexivity.
  cbn [read_loop fst snd]. rewrite !app_nil_r, !fragments_success. done.
Qed.

Lemma records_round_trip_witness :
  Forall (Forall (fun p => (10%N ∉ p) /\ p <> done_sentinel))
    [[js "Hello"; js " world"]; [js "!"]]
  /\ fragments (streamChatMessage
       (always (FetchResponse (ok_response None
          {| reads := [sse (js "Hello") ++ sse (js " world"); sse (js "!");
                       sse (js "[DONE]")];
             read_error := None |})))
       {| message := js "hi"; session_id := None |} true)
     = [js "Hello"; js " world"; js "!"].
Proof.
  assert (H : Forall (Forall (fun p => (10%N ∉ p) /\ p <> done_sentinel))
                [[js "Hello"; js " world"]; [js "!"]]).
  { repeat constructor; try (vm_compute; discriminate);
      vm_compute; intros Hin;
      repeat (apply elem_of_cons in Hin as [Hin|Hin]; [discriminate Hin|]);
      by apply elem_of_nil in Hin. }
  split; [exact H|].
  exact (proj1 (records_round_trip
                  {| message := js "hi"; session_id := None |} true 200 (Some []) None
                  _ [] None H)).
Defined.

Lemma read_loop_outcome rs err :
  (read_loop rs err).2 = Resolved
  \/ exists e, err = Some e /\ (read_loop rs err).2 = Rejected e.
Proof.
  induction rs as [|c rest IH]; cbn [read_loop].
  - destruct err; eauto.
  - destruct (for_lines (split_frames c)) as [fs [|]]; [by left|].
    by destruct (read_loop rest err).
Qed.

Lemma started_id_chunks acc fs :
  foldl started_id acc (EvChunk <$> fs) = acc.
Proof. induction fs as [|f fs IH]; [done|]. cbn. apply IH. Qed.

(** X10: the correlation id of a success response outlives a later
    failure: when the response is ok, has a body and a non-empty
    X-Request-ID, the page stores that id whether the stream then ends
    cleanly or breaks off, as long as the text of the failure holds no
    [request_id=] token of its own. *)
Theorem started_id_survives_failure fetch uuid text s r b id :
  isLoading s = false ->
  Js.trim text <> [] ->
  fetch {| wire_request := (submit_begin uuid (setInput text s)).2; stream := true |}
    = FetchResponse r ->
  ok r = true ->
  body r = Some b ->
  or_undefined (x_request_id r) = Some id ->
  (forall e, read_error b = Some e -> Js.match_request_id (error_text e) = None) ->
  requestId (send (page_transport fetch) uuid text s).1 = Some id.
Proof.
  intros Hl Ht Hf Hok Hb Hid He.
  rewrite send_unblocked by done. cbn [fst]. rewrite finish_requestId.
  unfold page_transport, streamChatMessage. rewrite Hf, Hok, Hb, Hid.
  destruct (read_loop_outcome (reads b) (read_error b)) as [Ho|(e & Herr & Ho)];
    destruct (read_loop (reads b) (read_error b)) as [fs o]; cbn in Ho; subst o;
    unfold attempt_request_id; cbn [events outcome app foldl started_id Js.truthy_opt].
  - assert (Js.truthy id = true) as ->.
    { unfold or_undefined in Hid. destruct (x_request_id r) as [x|]; [|done].
      destruct (Js.truthy x) eqn:E; by simplify_eq. }
    by rewrite started_id_chunks.
  - assert (Js.truthy id = true) as ->.
    { unfold or_undefined in Hid. destruct (x_request_id r) as [x|]; [|done].
      destruct (Js.truthy x) eqn:E; by simplify_eq. }
    rewrite started_id_chunks, (He e Herr). done.
Qed.

Lemma started_id_survives_failure_witness :
  isLoading initial = false
  /\ Js.trim (js "hi") <> []
  /\ requestId
       (send (page_transport (always (FetchResponse (ok_response (Some (js "req-456"))
                {| reads := [sse (js "Partial")];
                   read_error := Some (ErrorObj (js "network error")) |}))))
             None (js "hi") initial).1
     = Some (js "req-456").
Proof.
  assert (H1 : isLoading initial = false) by reflexivity.
  assert (H2 : Js.trim (js "hi") <> []) by (vm_compute; discriminate).
  split; [exact H1|]. split; [exact H2|].
  apply (started_id_survives_failure _ None (js "hi") initial
           (ok_response (Some (js "req-456"))
              {| reads := [sse (js "Partial")];
                 read_error := Some (ErrorObj (js "network error")) |})
           {| reads := [sse (js "Partial")];
              read_error := Some (ErrorObj (js "network error")) |}
           (js "req-456") H1 H2); try reflexivity.
  intros e [= <-]. reflexivity.
Defined.

End StreamProperties.

(** ** The e-mail pattern and the file-name pattern *)
Section PatternFacts.

Lemma email_tld_spec s :
  Js.email_tld s = true
  <-> s <> [] /\ Forall (fun c => Js.is_email_char c = true) s.
Proof.
  unfold Js.email_tld. rewrite andb_true_iff, forallb_forall, Forall_forall.
  split; intros [H1 H2]; (split; [by destruct s|]).
  - intros c Hc%list_elem_of_In. by apply H2.
  - intros c Hc%list_elem_of_In. by apply H2.
Qed.

Lemma email_domain_spec s : forall seen,
  Js.email_domain seen s = true
  <-> exists d t, s = d ++ 46%N :: t
                  /\ (seen = true \/ d <> [])
                  /\ Forall (fun c => Js.is_email_char c = true) d
                  /\ t <> [] /\ Forall (fun c => Js.is_email_char c = true) t.
Proof.
  induction s as [|c r IH]; intros seen; cbn [Js.email_domain].
  - split; [done|]. intros (d & t & H & _). by destruct d.
  - rewrite orb_true_iff, !andb_true_iff, N.eqb_eq, email_tld_spec, IH. split.
    + intros [[[-> ->] [Ht1 Ht2]] | [Hc (d & t & -> & _ & Hd & Ht)]].
      * exists [], r. repeat split; [by left | done | done | done].
      * exists (c :: d), t. repeat split; [by right | by constructor | apply Ht | apply Ht].
    + intros (d & t & Hs & Hseen & Hd & Ht1 & Ht2). destruct d as [|c' d].
      * cbn in Hs. simplify_eq. left. destruct Hseen as [->|]; done.
      * cbn in Hs. simplify_eq. right. inversion Hd; subst. split; [done|].
        exists d, t. repeat split; [by left | done | done | done].
Qed.

Lemma email_local_spec s : forall seen,
  Js.email_local seen s = true
  <-> exists l r, s = l ++ 64%N :: r
                  /\ (seen = true \/ l <> [])
                  /\ Forall (fun c => Js.is_email_char c = true) l
                  /\ Js.email_domain false r = true.
Proof.
  induction s as [|c r IH]; intros seen; cbn [Js.email_local].
  - split; [done|]. intros (l & t & H & _). by destruct l.
  - rewrite orb_true_iff, !andb_true_iff, N.eqb_eq, IH. split.
    + intros [[[-> ->] Hd] | [Hc (l & t & -> & _ & Hl & Hd)]].
      * exists [], r. repeat split; [by left | done | done].
      * exists (c :: l), t. repeat split; [by right | by constructor | done].
    + intros (l & t & Hs & Hseen & Hl & Hd). destruct l as [|c' l].
      * cbn in Hs. simplify_eq. left. destruct Hseen as [->|]; done.
      * cbn in Hs. simplify_eq. right. inversion Hl; subst. split; [done|].
        exists l, t. repeat split; [by left | done | done].
Qed.

Lemma ieq_quote b : Js.ieq 34 b = true -> b = 34%N.
Proof.
  unfold Js.ieq. intros H%N.eqb_eq.
  change (Js.upper 34) with 34%N in H. unfold Js.upper in H.
  destruct ((97 <=? b)%N && (b <=? 122)%N) eqn:E; [|done].
  apply andb_true_iff in E as [E1%N.leb_le E2%N.leb_le]. lia.
Qed.

Lemma non_quote_run_app p s :
  34%N ∉ p -> Js.non_quote_run (p ++ s) = p ++ Js.non_quote_run s.
Proof.
  induction p as [|c p IH]; intros Hp; [done|]. cbn.
  assert (c <> 34%N) as Hc%N.eqb_neq by (intros ->; apply Hp; by left).
  rewrite Hc, IH; [done|]. intros ?. apply Hp. by right.
Qed.

Lemma non_quote_run_no_quote s : 34%N ∉ Js.non_quote_run s.
Proof.
  induction s as [|c r IH]; cbn; [by apply not_elem_of_nil|].
  destruct (c =? 34)%N eqn:E; [by apply not_elem_of_nil|].
  apply N.eqb_neq in E. intros [?|?]%elem_of_cons; [done | by apply IH].
Qed.

(** Where the literal matches, the first quote of the text is the one
    that closes the literal. *)
Lemma strip_literal_run p : forall s r,
  Forall (fun a => Js.ieq a 34 = false) p ->
  Js.strip_prefix_i (p ++ [34%N]) s = Some r ->
  length (Js.non_quote_run s) = length p.
Proof.
  induction p as [|a p IH]; intros s r Hp H; destruct s as [|b s]; try done.
  - cbn [app Js.strip_prefix_i] in H. destruct (Js.ieq 34 b) eqn:E; [|done].
    apply ieq_quote in E as ->. done.
  - cbn [app Js.strip_prefix_i] in H. destruct (Js.ieq a b) eqn:E; [|done].
    inversion Hp as [|? ? Ha Hp']; subst. cbn [Js.non_quote_run].
    destruct (b =? 34)%N eqn:Eb.
    + apply N.eqb_eq in Eb as ->. congruence.
    + cbn [length]. f_equal. by apply (IH s r).
Qed.

Lemma filename_at_shifted c pre rest :
  34%N ∉ (c :: pre) ->
  Js.filename_at ((c :: pre) ++ Js.filename_literal ++ rest) = None.
Proof.
  intros Hp. unfold Js.filename_at.
  destruct (Js.strip_prefix_i Js.filename_literal _) as [r|] eqn:E; [|done].
  apply strip_literal_run in E; [|vm_compute; repeat constructor].
  rewrite non_quote_run_app in E by done.
  rewrite length_app in E.
  assert (length (Js.non_quote_run (Js.filename_literal ++ rest)) = 9) as Hn
    by reflexivity.
  rewrite Hn in E. cbn in E. lia.
Qed.

Lemma match_filename_cons c r :
  Js.match_filename (c :: r)
  = match Js.filename_at (c :: r) with
    | Some t => Some t
    | None => Js.match_filename r
    end.
Proof. reflexivity. Qed.

Lemma match_filename_found pre name post :
  34%N ∉ pre -> name <> [] -> 34%N ∉ name ->
  Js.match_filename (pre ++ Js.filename_literal ++ name ++ 34%N :: post) = Some name.
Proof.
  intros Hp Hn Hq. induction pre as [|c pre IH].
  - cbn [app].
    assert (Js.filename_at (Js.filename_literal ++ name ++ 34%N :: post) = Some name)
      as Hat.
    { unfold Js.filename_at. rewrite strip_prefix_i_self.
      rewrite non_quote_run_app by done. cbn [Js.non_quote_run].
      rewrite N.eqb_refl, app_nil_r. destruct name as [|n l]; [done|].
      by rewrite drop_app_length. }
    destruct (Js.filename_literal ++ name ++ 34%N :: post) as [|x xs] eqn:E.
    + by destruct name.
    + by rewrite match_filename_cons, Hat.
  - change ((c :: pre) ++ ?x) with (c :: (pre ++ x)).
    rewrite match_filename_cons.
    change (c :: (pre ++ ?x)) with ((c :: pre) ++ x).
    rewrite filename_at_shifted by done.
    apply IH. intros ?. apply Hp. by right.
Qed.

Lemma filename_at_sound s n :
  Js.filename_at s = Some n -> n <> [] /\ 34%N ∉ n.
Proof.
  unfold Js.filename_at. destruct (Js.strip_prefix_i _ s) as [rest|]; [|done].
  pose proof (non_quote_run_no_quote rest) as Hq.
  destruct (Js.non_quote_run rest) as [|c run]; [done|].
  destruct (drop _ rest); [done|]. by intros [= <-].
Qed.

Lemma match_filename_sound s n :
  Js.match_filename s = Some n -> n <> [] /\ 34%N ∉ n.
Proof.
  induction s as [|c r IH].
  - intros H. by vm_compute in H.
  - rewrite match_filename_cons.
    destruct (Js.filename_at (c :: r)) eqn:E; [|done].
    intros [= <-]. by apply (filename_at_sound (c :: r)).
Qed.

End PatternFacts.

Section IdentityAndHeaders.
Import Api Identity.

(** X11: what [isValidEmail] accepts.  A value is accepted exactly when,
    with the white space around it removed, it reads local part, [@],
    domain, full stop, ending, where the three parts are not empty and hold
    neither white space nor [@]; so an accepted address has exactly one
    [@]. *)
Theorem valid_email_shape value :
  isValidEmail value = true
  <-> exists l d t,
        Js.trim value = l ++ 64%N :: d ++ 46%N :: t
        /\ l <> [] /\ d <> [] /\ t <> []
        /\ Forall (fun c => Js.is_white_space c = false /\ c <> 64%N) (l ++ d ++ t).
Proof.
  assert (Hclass : forall s,
            Forall (fun c => Js.is_email_char c = true) s
            <-> Forall (fun c => Js.is_white_space c = false /\ c <> 64%N) s).
  { intros s. apply Forall_iff. intros c. unfold Js.is_email_char.
    rewrite andb_true_iff, !negb_true_iff, N.eqb_neq. done. }
  unfold isValidEmail, Js.email_regex_test.
  destruct (Js.trim value) as [|c0 s0] eqn:E.
  { cbn. split; [done|]. intros (l & d & t & H & _). by destruct l. }
  cbn [Js.truthy negb]. rewrite email_local_spec. split.
  - intros (l & r & -> & [?|Hl] & Hcl & (d & t & -> & [?|Hd] & Hcd & Ht & Hct)%email_domain_spec);
      try done.
    exists l, d, t. repeat split; try done.
    rewrite !Forall_app, <- !Hclass. done.
  - intros (l & d & t & -> & Hl & Hd & Ht & Hc).
    rewrite !Forall_app, <- !Hclass in Hc. destruct Hc as (Hcl & Hcd & Hct).
    exists l, (d ++ 46%N :: t). repeat split; [by right | done |].
    apply email_domain_spec. exists d, t. repeat split; [by right | done | done | done].
Qed.

Lemma valid_email_shape_witness :
  (exists l d t,
      Js.trim (js " u1@example.com ") = l ++ 64%N :: d ++ 46%N :: t
      /\ l <> [] /\ d <> [] /\ t <> []
      /\ Forall (fun c => Js.is_white_space c = false /\ c <> 64%N) (l ++ d ++ t))
  /\ isValidEmail (js " u1@example.com ") = true.
Proof.
  assert (H : exists l d t,
      Js.trim (js " u1@example.com ") = l ++ 64%N :: d ++ 46%N :: t
      /\ l <> [] /\ d <> [] /\ t <> []
      /\ Forall (fun c => Js.is_white_space c = false /\ c <> 64%N) (l ++ d ++ t)).
  { exists (js "u1"), (js "example"), (js "com").
    split; [reflexivity|]. split; [vm_compute; discriminate|].
    split; [vm_compute; discriminate|]. split; [vm_compute; discriminate|].
    vm_compute. repeat constructor; discriminate. }
  split; [exact H|].
  exact (proj2 (valid_email_shape (js " u1@example.com ")) H).
Defined.

Lemma isValidEmail_trim v : isValidEmail (Js.trim v) = isValidEmail v.
Proof. unfold isValidEmail. by rewrite trim_idem. Qed.

Lemma isValidEmail_truthy v : isValidEmail v = true -> Js.truthy (Js.trim v) = true.
Proof. unfold isValidEmail. by destruct (Js.trim v). Qed.

Lemma trimmed_or_undefined_trimmed v :
  Js.truthy v = true -> Js.trim v = v -> trimmed_or_undefined (Some v) = Some v.
Proof. intros Hv Ht. unfold trimmed_or_undefined. by rewrite Ht, Hv. Qed.

Lemma trimmed_or_undefined_clean x v :
  trimmed_or_undefined x = Some v -> v <> [] /\ Js.trim v = v.
Proof.
  unfold trimmed_or_undefined. destruct x as [raw|]; [|done].
  destruct (Js.truthy raw && Js.truthy (Js.trim raw)) eqn:E; [|done].
  apply andb_true_iff in E as [_ E]. intros [= <-].
  split; [by destruct (Js.trim raw) | apply trim_idem].
Qed.

Lemma save_email_cases store v :
  (Js.trim v <> [] /\ isValidEmail v = false /\ save_email store v = store)
  \/ (Js.trim v = [] /\ save_email store v = delete (js "userEmail") store)
  \/ (isValidEmail v = true
      /\ save_email store v = <[ js "userEmail" := Js.trim v ]> store).
Proof.
  unfold save_email, handleSave. cbn [email]. rewrite isValidEmail_trim.
  destruct (Js.trim v) as [|c r] eqn:E.
  - right. left. done.
  - cbn [Js.truthy negb andb]. destruct (isValidEmail v) eqn:Ev; cbn [negb].
    + right. right. done.
    + left. done.
Qed.

(** X12: the Identity form never stores an address it would reject.  If
    the stored e-mail is absent or valid and trimmed to begin with, then
    after any number of Save clicks, with whatever was typed, it still is;
    and [getUserEmail] then returns the stored value as it is. *)
Theorem stored_email_stays_valid vs : forall store key,
  (forall x, store !! js "userEmail" = Some x ->
             isValidEmail x = true /\ Js.trim x = x) ->
  let store' := foldl save_email store vs in
  (forall x, store' !! js "userEmail" = Some x ->
             isValidEmail x = true /\ Js.trim x = x)
  /\ getUserEmail {| NEXT_PUBLIC_API_KEY := key; localStorage := Some store' |}
     = store' !! js "userEmail".
Proof.
  induction vs as [|v vs IH]; intros store key Hs; cbn [foldl].
  - split; [done|]. unfold getUserEmail. cbn [localStorage].
    destruct (store !! js "userEmail") as [x|] eqn:E; [|done].
    destruct (Hs x eq_refl) as [Hv Ht].
    apply trimmed_or_undefined_trimmed; [|done].
    apply isValidEmail_truthy in Hv. by rewrite Ht in Hv.
  - apply IH. intros x.
    destruct (save_email_cases store v) as [(_ & _ & ->)|[(_ & ->)|(Hv & ->)]].
    + apply Hs.
    + by rewrite lookup_delete_eq.
    + rewrite lookup_insert_eq. intros [= <-].
      split; [by rewrite isValidEmail_trim | apply trim_idem].
Qed.

Lemma stored_email_stays_valid_witness :
  (forall x, (∅ : gmap JsString JsString) !! js "userEmail" = Some x ->
             isValidEmail x = true /\ Js.trim x = x)
  /\ getUserEmail {| NEXT_PUBLIC_API_KEY := None;
                     localStorage := Some (foldl save_email ∅
                                             [js " u1@example.com "; js "not-an-email"]) |}
     = Some (js "u1@example.com").
Proof.
  assert (H : forall x, (∅ : gmap JsString JsString) !! js "userEmail" = Some x ->
                        isValidEmail x = true /\ Js.trim x = x).
  { intros x Hx. by rewrite lookup_empty in Hx. }
  split; [exact H|].
  rewrite (proj2 (stored_email_stays_valid
                    [js " u1@example.com "; js "not-an-email"] ∅ None H)).
  vm_compute. reflexivity.
Defined.

Lemma buildHeaders_default env :
  buildHeaders env None
  = let h0 : gmap JsString JsString := {[ js "Content-Type" := js "application/json" ]} in
    let h1 := match getApiKey env with
              | Some k => <[ js "X-API-Key" := k ]> h0
              | None => h0
              end in
    match getUserEmail env with
    | Some e => <[ js "X-User-Email" := e ]> h1
    | None => h1
    end.
Proof. unfold buildHeaders. cbn [default]. by rewrite (left_id_L ∅ (∪)). Qed.

Lemma header_keys_differ :
  js "X-API-Key" <> js "Content-Type"
  /\ js "X-User-Email" <> js "Content-Type"
  /\ js "X-User-Email" <> js "X-API-Key".
Proof. vm_compute. repeat split; discriminate. Qed.

(** X13: saving an e-mail makes the API calls carry it.  After a Save
    that the form accepts (a valid address, or a blank field), the headers
    built for the next request hold X-User-Email with the trimmed address,
    or no X-User-Email at all when the field was blank. *)
Theorem saved_email_reaches_headers key store v :
  isValidEmail v = true \/ Js.trim v = [] ->
  buildHeaders {| NEXT_PUBLIC_API_KEY := key;
                  localStorage := Some (save_email store v) |} None
    !! js "X-User-Email"
  = if Js.truthy (Js.trim v) then Some (Js.trim v) else None.
Proof.
  intros Hv. destruct header_keys_differ as (H1 & H2 & H3).
  rewrite buildHeaders_default. cbv zeta. unfold getUserEmail at 1. cbn [localStorage].
  destruct (save_email_cases store v) as [(Hne & Hf & _)|[(Ht & ->)|(Hok & ->)]].
  - destruct Hv as [Hv|Hv]; [congruence | done].
  - rewrite Ht, lookup_delete_eq. cbn [trimmed_or_undefined Js.truthy].
    destruct (getApiKey _); [rewrite lookup_insert_ne by done|];
      by rewrite lookup_singleton_ne.
  - rewrite lookup_insert_eq.
    pose proof (isValidEmail_truthy v Hok) as Htr. rewrite Htr.
    rewrite trimmed_or_undefined_trimmed by (done || apply trim_idem).
    by rewrite lookup_insert_eq.
Qed.

Lemma saved_email_reaches_headers_witness :
  (isValidEmail (js " u1@example.com ") = true \/ Js.trim (js " u1@example.com ") = [])
  /\ buildHeaders {| NEXT_PUBLIC_API_KEY := Some (js " secret ");
                     localStorage := Some (save_email ∅ (js " u1@example.com ")) |} None
       !! js "X-User-Email"
     = Some (js "u1@example.com").
Proof.
  assert (H : isValidEmail (js " u1@example.com ") = true
              \/ Js.trim (js " u1@example.com ") = []) by (left; reflexivity).
  split; [exact H|].
  exact (saved_email_reaches_headers (Some (js " secret ")) ∅ (js " u1@example.com ") H).
Defined.

(** X14: the headers [buildHeaders] adds on its own are clean: every
    value is non-empty and has no white space at either end, and the only
    keys are Content-Type, X-API-Key and X-User-Email; in particular a
    blank API key or e-mail is never sent. *)
Theorem default_headers_are_clean env k v :
  buildHeaders env None !! k = Some v ->
  v <> [] /\ Js.trim v = v
  /\ (k = js "Content-Type" \/ k = js "X-API-Key" \/ k = js "X-User-Email").
Proof.
  rewrite buildHeaders_default. cbv zeta.
  destruct (getUserEmail env) as [e|] eqn:Ee, (getApiKey env) as [a|] eqn:Ea;
    rewrite ?lookup_insert_Some, ?lookup_singleton_Some;
    intros H; repeat (destruct H as [[<- <-]|[_ H]] || destruct H as [<- <-]);
    try (split; [vm_compute; discriminate|]; split; [reflexivity|]; by left);
    try (destruct (trimmed_or_undefined_clean _ _ Ee); by eauto 6);
    try (destruct (trimmed_or_undefined_clean _ _ Ea); by eauto 6).
  all: unfold getUserEmail in Ee; destruct (localStorage env); [|done];
    destruct (trimmed_or_undefined_clean _ _ Ee); by eauto 6.
Qed.

Lemma default_headers_are_clean_witness :
  buildHeaders {| NEXT_PUBLIC_API_KEY := Some (js " secret "); localStorage := None |}
    None !! js "X-API-Key" = Some (js "secret")
  /\ Js.trim (js "secret") = js "secret".
Proof.
  assert (H : buildHeaders {| NEXT_PUBLIC_API_KEY := Some (js " secret ");
                              localStorage := None |}
                None !! js "X-API-Key" = Some (js "secret")).
  { rewrite buildHeaders_default. vm_compute. reflexivity. }
  split; [exact H|].
  exact (proj1 (proj2 (default_headers_are_clean _ _ _ H))).
Defined.

(** X15: headers the caller passes win over the defaults, key by key, and
    every other key keeps its default; Content-Type is always present. *)
Theorem extra_headers_win env extra k :
  buildHeaders env (Some extra) !! k
  = match extra !! k with
    | Some v => Some v
    | None => buildHeaders env None !! k
    end
  /\ is_Some (buildHeaders env (Some extra) !! js "Content-Type").
Proof.
  destruct header_keys_differ as (H1 & H2 & H3).
  assert (Hl : forall j, buildHeaders env (Some extra) !! j
               = match extra !! j with
                 | Some v => Some v
                 | None => buildHeaders env None !! j
                 end).
  { intros j. unfold buildHeaders at 1. cbn [default].
    destruct (extra !! j) eqn:E.
    - by apply lookup_union_Some_l.
    - rewrite lookup_union_r by done. by rewrite buildHeaders_default. }
  split; [apply Hl|]. rewrite Hl.
  destruct (extra !! js "Content-Type"); [by eauto|].
  rewrite buildHeaders_default. cbv zeta.
  destruct (getUserEmail env), (getApiKey env);
    rewrite ?lookup_insert_ne by done; rewrite lookup_singleton_eq; eauto.
Qed.

End IdentityAndHeaders.

Section ExportProperties.
Import Api.

(** X16: [exportProperties] yields a file only for an ok response, passes
    the blob through unchanged, and never names the file with the empty
    string; a name taken from the header holds no double quote. *)
Theorem export_result_sound fetched format name b :
  exportProperties fetched format = Exported name b ->
  exists r, fetched = inr r
            /\ export_ok r = true
            /\ blob_ r = inr b
            /\ name <> []
            /\ (name = js "properties." ++ format_text format \/ 34%N ∉ name).
Proof.
  unfold exportProperties. destruct fetched as [e|r]; [done|].
  destruct (export_ok r) eqn:Eok; cbn [negb]; [|done].
  destruct (blob_ r) as [e|b'] eqn:Eb; [done|]. intros [= <- <-].
  exists r. repeat split; try done.
  - unfold export_filename.
    destruct (Js.match_filename _) as [n|] eqn:E.
    + by apply match_filename_sound in E as [? _].
    + by destruct format.
  - unfold export_filename.
    destruct (Js.match_filename _) as [n|] eqn:E.
    + right. by apply match_filename_sound in E as [_ ?].
    + by left.
Qed.

Lemma export_result_sound_witness :
  exportProperties
    (inr {| export_ok := true; export_text := None; content_disposition := None;
            blob_ := inr [1%N; 2%N] |}) csv
  = Exported (js "properties.csv") [1%N; 2%N]
  /\ js "properties.csv" <> [].
Proof.
  assert (H : exportProperties
                (inr {| export_ok := true; export_text := None;
                        content_disposition := None; blob_ := inr [1%N; 2%N] |}) csv
              = Exported (js "properties.csv") [1%N; 2%N]) by reflexivity.
  split; [exact H|].
  destruct (export_result_sound _ _ _ _ H) as (r & _ & _ & _ & Hn & _). exact Hn.
Defined.

(** X17: a file name sent by the service round-trips.  When the
    Content-Disposition header holds, after any text without a double quote,
    the word [filename=] and a non-empty name between double quotes, the
    exported file gets exactly that name, whatever the format and whatever
    follows the closing quote. *)
Theorem export_filename_round_trip pre name post format :
  34%N ∉ pre ->
  name <> [] ->
  34%N ∉ name ->
  export_filename (Some (pre ++ Js.filename_literal ++ name ++ 34%N :: post)) format
  = name.
Proof.
  intros Hp Hn Hq. unfold export_filename.
  change (default [] (Some ?x)) with x. cbv zeta.
  by rewrite match_filename_found.
Qed.

Lemma export_filename_round_trip_witness :
  (34%N ∉ js "attachment; ")
  /\ js "listing.csv" <> []
  /\ (34%N ∉ js "listing.csv")
  /\ export_filename
       (Some (js "attachment; " ++ Js.filename_literal ++ js "listing.csv" ++ 34%N :: []))
       xlsx
     = js "listing.csv".
Proof.
  assert (no_quote : forall s : JsString, forallb (fun c => negb (c =? 34)%N) s = true ->
                                          34%N ∉ s).
  { intros s Hs Hin. apply list_elem_of_In in Hin.
    rewrite forallb_forall in Hs. specialize (Hs _ Hin). done. }
  assert (H1 : 34%N ∉ js "attachment; ") by (apply no_quote; reflexivity).
  assert (H2 : js "listing.csv" <> []) by (vm_compute; discriminate).
  assert (H3 : 34%N ∉ js "listing.csv") by (apply no_quote; reflexivity).
  split; [exact H1|]. split; [exact H2|]. split; [exact H3|].
  exact (export_filename_round_trip _ _ [] xlsx H1 H2 H3).
Defined.

End ExportProperties.

Section ModelSettingsProperties.
Import ModelSettings.

Lemma find_provider_Some cat x p :
  find_provider cat x = Some p -> name p = x /\ p ∈ cat.
Proof.
  unfold find_provider. destruct (list_find _ cat) as [[i q]|] eqn:E; [|done].
  cbn. intros [= <-]. apply list_find_Some in E as (Hi & Hn & _).
  split; [done|]. by eapply list_elem_of_lookup_2.
Qed.

Lemma find_provider_is_Some cat x :
  x ∈ providers (Some cat) <-> is_Some (find_provider cat x).
Proof.
  unfold providers, find_provider. rewrite list_elem_of_fmap. split.
  - intros (p & -> & Hp).
    destruct (list_find_elem_of (fun q => name q = name p) cat p Hp eq_refl) as [[i q] ->].
    cbn. eauto.
  - intros [p Hp]. destruct (list_find _ cat) as [[i q]|] eqn:E; [|done].
    cbn in Hp. simplify_eq. apply list_find_Some in E as (Hi & Hn & _).
    exists p. split; [done|]. by eapply list_elem_of_lookup_2.
Qed.

Lemma truthy_opt_Some o :
  Js.truthy_opt o = true -> exists v, o = Some v /\ v <> [] /\ default [] o = v.
Proof. destruct o as [[|c v]|]; try done. intros _. by eexists. Qed.

(** X18: Save sends only what the catalog offers.  Whenever [handleSave]
    gets as far as the network call, an e-mail is set, and the pair it
    sends names a provider of the catalog and one of that provider's
    models, both non-empty; in every other case it shows an error and
    sends nothing. *)
Theorem save_sends_catalog_pair catalog userEmail c pv m :
  handleSave catalog userEmail c = inr (pv, m) ->
  Js.truthy_opt userEmail = true
  /\ preferredProvider c = Some pv /\ preferredModel c = Some m
  /\ pv <> [] /\ m <> []
  /\ exists cat p, catalog = Some cat
                   /\ find_provider cat pv = Some p
                   /\ name p = pv /\ p ∈ cat /\ m ∈ models p.
Proof.
  unfold handleSave.
  destruct (Js.truthy_opt userEmail) eqn:Eu; cbn [negb]; [|done].
  destruct (Js.truthy_opt (preferredProvider c)) eqn:Ep; cbn [negb orb]; [|done].
  destruct (Js.truthy_opt (preferredModel c)) eqn:Em; cbn [negb]; [|done].
  destruct catalog as [cat|]; [|done].
  apply truthy_opt_Some in Ep as (pv' & Hp & Hpne & ->).
  apply truthy_opt_Some in Em as (m' & Hm & Hmne & ->).
  destruct (find_provider cat pv') as [p|] eqn:Ef; [|done].
  destruct (bool_decide (m' ∈ models p)) eqn:Eb; cbn [negb]; [|done].
  intros [= <- <-]. apply bool_decide_eq_true in Eb.
  destruct (find_provider_Some _ _ _ Ef) as [Hn Hin].
  repeat split; try done. exists cat, p. done.
Qed.

Lemma save_sends_catalog_pair_witness :
  handleSave (Some [{| name := js "openai"; models := [js "gpt-4o"; js "gpt-4o-mini"] |}])
             (Some (js "u1@example.com"))
             {| preferredProvider := Some (js "openai");
                preferredModel := Some (js "gpt-4o-mini") |}
  = inr (js "openai", js "gpt-4o-mini")
  /\ Js.truthy_opt (Some (js "u1@example.com")) = true.
Proof.
  assert (H : handleSave
                (Some [{| name := js "openai"; models := [js "gpt-4o"; js "gpt-4o-mini"] |}])
                (Some (js "u1@example.com"))
                {| preferredProvider := Some (js "openai");
                   preferredModel := Some (js "gpt-4o-mini") |}
              = inr (js "openai", js "gpt-4o-mini")) by (vm_compute; reflexivity).
  split; [exact H|].
  exact (proj1 (save_sends_catalog_pair _ _ _ _ _ H)).
Defined.

(** X19: the validation effect leaves a choice the catalog offers, and
    running it again changes nothing: afterwards a chosen provider is one
    of the catalog, and a chosen model is one of that provider's models. *)
Theorem validate_makes_choice_consistent cat c :
  let c' := validate (Some cat) c in
  validate (Some cat) c' = c'
  /\ (forall v, preferredProvider c' = Some v -> v <> [] ->
                exists p, find_provider cat v = Some p
                          /\ (forall m, preferredModel c' = Some m -> m <> [] ->
                                        m ∈ models p)).
Proof.
  destruct c as [[[|c0 pv]|] pm]; cbv zeta;
    try (split; [reflexivity | by intros v [= <-]]).
  set (v0 := c0 :: pv).
  assert (Hval : forall pm',
    validate (Some cat) {| preferredProvider := Some v0; preferredModel := pm' |}
    = if negb (bool_decide (v0 ∈ providers (Some cat)))
      then {| preferredProvider := None; preferredModel := None |}
      else if Js.truthy_opt pm'
              && negb (bool_decide (default [] pm'
                         ∈ modelsForProvider (Some cat)
                             {| preferredProvider := Some v0; preferredModel := pm' |}))
      then {| preferredProvider := Some v0; preferredModel := None |}
      else {| preferredProvider := Some v0; preferredModel := pm' |}) by reflexivity.
  assert (Hmodels : forall pm',
    modelsForProvider (Some cat) {| preferredProvider := Some v0; preferredModel := pm' |}
    = match find_provider cat v0 with Some p => models p | None => [] end) by reflexivity.
  rewrite !Hval, Hmodels.
  destruct (bool_decide (v0 ∈ providers (Some cat))) eqn:Ein; cbn [negb].
  2:{ split; [reflexivity | done]. }
  pose proof Ein as [p Hf]%bool_decide_eq_true%find_provider_is_Some. rewrite Hf.
  destruct pm as [[|m0 m]|]; cbn [Js.truthy_opt Js.truthy andb].
  - rewrite Hval. cbn [negb Js.truthy_opt Js.truthy andb].
    split; [reflexivity|]. intros v [= <-] _. exists p. split; [done|]. by intros m' [= <-].
  - change (default [] (Some (m0 :: m))) with (m0 :: m).
    destruct (bool_decide (m0 :: m ∈ models p)) eqn:Eb; cbn [negb].
    + rewrite Hval, Hmodels, Hf. cbn [negb Js.truthy_opt Js.truthy andb].
      change (default [] (Some (m0 :: m))) with (m0 :: m). rewrite Eb. cbn [negb].
      split; [reflexivity|]. intros v [= <-] _. exists p. split; [done|].
      intros m' [= <-] _. by apply bool_decide_eq_true in Eb.
    + rewrite Hval. cbn [negb Js.truthy_opt andb].
      split; [reflexivity|]. intros v [= <-] _. exists p. done.
  - rewrite Hval. cbn [negb Js.truthy_opt andb].
    split; [reflexivity|]. intros v [= <-] _. exists p. done.
Qed.

(** X20: picking a provider in the select gives a choice that Save
    accepts: for a provider of the catalog whose first model has a
    non-empty id, the form then holds that provider with that model, the
    validation effect keeps it, and Save (with an e-mail set) sends exactly
    that pair. *)
Theorem select_provider_then_save cat userEmail v p m :
  Js.truthy_opt userEmail = true ->
  v <> [] ->
  find_provider cat v = Some p ->
  head (models p) = Some m ->
  m <> [] ->
  selectProvider cat v = {| preferredProvider := Some v; preferredModel := Some m |}
  /\ validate (Some cat) (selectProvider cat v) = selectProvider cat v
  /\ handleSave (Some cat) userEmail (selectProvider cat v) = inr (v, m).
Proof.
  intros Hu Hv Hf Hh Hm.
  assert (Hin : m ∈ models p).
  { destruct (models p) as [|x xs]; [done|]. cbn in Hh. simplify_eq. by left. }
  assert (Htv : Js.truthy v = true) by (by destruct v).
  assert (Htm : Js.truthy m = true) by (by destruct m).
  assert (Hs : selectProvider cat v
               = {| preferredProvider := Some v; preferredModel := Some m |}).
  { unfold selectProvider. cbn [or_null]. rewrite Htv, Hf.
    cbn [mbind option_bind]. rewrite Hh. cbn [or_null]. by rewrite Htm. }
  rewrite Hs. split; [done|].
  split.
  - unfold validate. cbn [preferredProvider preferredModel Js.truthy_opt default].
    rewrite Htv, Htm. cbn [negb andb].
    rewrite bool_decide_eq_true_2.
    2:{ apply find_provider_is_Some. by eauto. }
    cbn [negb]. unfold modelsForProvider.
    cbn [preferredProvider Js.truthy_opt default]. rewrite Htv. cbn [negb].
    unfold id. rewrite Hf.
    by rewrite (bool_decide_eq_true_2 _ Hin).
  - unfold handleSave. rewrite Hu.
    cbn [preferredProvider preferredModel Js.truthy_opt negb orb].
    rewrite Htv, Htm. cbn [negb orb].
    change (default [] (Some v)) with v. rewrite Hf.
    change (default [] (Some m)) with m.
    by rewrite (bool_decide_eq_true_2 _ Hin).
Qed.

Lemma select_provider_then_save_witness :
  Js.truthy_opt (Some (js "u1@example.com")) = true
  /\ js "openai" <> []
  /\ js "gpt-4o" <> []
  /\ handleSave
       (Some [{| name := js "openai"; models := [js "gpt-4o"; js "gpt-4o-mini"] |}])
       (Some (js "u1@example.com"))
       (selectProvider
          [{| name := js "openai"; models := [js "gpt-4o"; js "gpt-4o-mini"] |}]
          (js "openai"))
     = inr (js "openai", js "gpt-4o").
Proof.
  assert (H1 : Js.truthy_opt (Some (js "u1@example.com")) = true) by reflexivity.
  assert (H2 : js "openai" <> []) by (vm_compute; discriminate).
  assert (H3 : js "gpt-4o" <> []) by (vm_compute; discriminate).
  split; [exact H1|]. split; [exact H2|]. split; [exact H3|].
  refine (proj2 (proj2 (select_provider_then_save
            [{| name := js "openai"; models := [js "gpt-4o"; js "gpt-4o-mini"] |}]
            (Some (js "u1@example.com")) (js "openai")
            {| name := js "openai"; models := [js "gpt-4o"; js "gpt-4o-mini"] |}
            (js "gpt-4o") H1 H2 _ _ H3))); vm_compute; reflexivity.
Defined.

End ModelSettingsProperties.
